(** * The extended bytecode interpreter of [solutions/interpret.py]

    A shallow embedding of the class [ExtendedInterpreter]: the machine
    state is the dataclass, every [step_*] method is a function from state
    to state in an error monad (a Python exception is a [Raise]), and
    [interpret] is the bounded [for ... else] loop, which also records the
    states it logs before each dispatch. *)

From Stdlib Require Import ZArith Lia Bool String.
From Stdlib Require Import Ascii.
From stdpp Require Import base list.

Local Open Scope Z_scope.

(** ** Values and Python's operators on them *)

(** Stack and local entries are Python [int]s (unbounded) and [bool]s:
    the driver appends [i == "true"] or [int(i)]. *)
Inductive Value : Type :=
| VInt (z : Z)
| VBool (b : bool).

(** [bool] is a subclass of [int]: in arithmetic and comparisons [True]
    counts as 1 and [False] as 0. *)
Definition as_int (v : Value) : Z :=
  match v with
  | VInt z => z
  | VBool b => if b then 1 else 0
  end.

(** [val1 + val2], [val2 - val1], [val1 * val2] and [val2 // val1]: the
    result of an arithmetic operator is always an [int].  Python's [//]
    rounds toward negative infinity, as [Z.div] does. *)
Definition py_add (x y : Value) : Value := VInt (as_int x + as_int y).
Definition py_sub (x y : Value) : Value := VInt (as_int x - as_int y).
Definition py_mul (x y : Value) : Value := VInt (as_int x * as_int y).
Definition py_floordiv (x y : Value) : Value := VInt (as_int x / as_int y).

(** [x == y], [x != y] and [x >= y] compare numerically. *)
Definition py_eq (x y : Value) : bool := as_int x =? as_int y.
Definition py_ne (x y : Value) : bool := negb (py_eq x y).
Definition py_ge (x y : Value) : bool := as_int y <=? as_int x.

(** ** Exceptions *)

Inductive Exn : Type :=
| IndexError
| KeyError (key : string).

Inductive Res (A : Type) : Type :=
| Ok (a : A)
| Raise (e : Exn).
Arguments Ok {A} a.
Arguments Raise {A} e.

Definition bind {A B : Type} (m : Res A) (k : A -> Res B) : Res B :=
  match m with
  | Ok a => k a
  | Raise e => Raise e
  end.

Notation "'do' x <- m ; k" := (bind m (fun x => k))
  (at level 10, x name, m at level 100, k at level 200).
Notation "'do' ' p <- m ; k" := (bind m (fun p => k))
  (at level 10, p pattern, m at level 100, k at level 200).

(** ** Python lists *)

(** An index [i] of a list of length [len] denotes position [i] when
    [0 <= i < len] and position [len + i] when [-len <= i < 0]; any other
    index raises [IndexError]. *)
Definition norm_index (len : nat) (i : Z) : option nat :=
  if (0 <=? i) && (i <? Z.of_nat len) then Some (Z.to_nat i)
  else if (- Z.of_nat len <=? i) && (i <? 0) then Some (Z.to_nat (Z.of_nat len + i))
  else None.

(** [l[i]] *)
Definition getitem {A : Type} (l : list A) (i : Z) : Res A :=
  match norm_index (length l) i with
  | Some n => match l !! n with
              | Some x => Ok x
              | None => Raise IndexError
              end
  | None => Raise IndexError
  end.

(** [l[i] = x] *)
Definition setitem {A : Type} (l : list A) (i : Z) (x : A) : Res (list A) :=
  match norm_index (length l) i with
  | Some n => Ok (<[n:=x]> l)
  | None => Raise IndexError
  end.

(** [l.pop(0)]: the removed element and the rest. *)
Definition pop0 {A : Type} (l : list A) : Res (A * list A) :=
  match l with
  | [] => Raise IndexError
  | x :: l' => Ok (x, l')
  end.

(** [l.insert(0, x)] *)
Definition insert0 {A : Type} (x : A) (l : list A) : list A := x :: l.

(** ** Instructions *)

(** An instruction is a dictionary with the key ["opr"] and the fields
    of its operation: [bc["value"]["value"]], [bc["index"]],
    [bc["target"]] or [bc["type"]] (which may be [None]).  Reading a key
    that the dictionary does not have raises [KeyError]. *)
Inductive Fields : Type :=
| NoFields
| FValue (value : Value)
| FIndex (index : Z)
| FTarget (target : Z)
| FType (type : option string).

Record Instr : Type := mkInstr { opr : string; fields : Fields }.

Definition bc_value (bc : Instr) : Res Value :=
  match fields bc with FValue v => Ok v | _ => Raise (KeyError "value") end.
Definition bc_index (bc : Instr) : Res Z :=
  match fields bc with FIndex i => Ok i | _ => Raise (KeyError "index") end.
Definition bc_target (bc : Instr) : Res Z :=
  match fields bc with FTarget t => Ok t | _ => Raise (KeyError "target") end.
Definition bc_type (bc : Instr) : Res (option string) :=
  match fields bc with FType t => Ok t | _ => Raise (KeyError "type") end.

(** ** The machine state *)

(** [self.done] holds [None], one of the status strings, or the value
    popped by [ireturn]. *)
Inductive Done : Type :=
| DStr (s : string)
| DVal (v : Value).

Record ExtendedInterpreter : Type := mkInterp {
  bytecode : list Instr;
  locals : list Value;
  stack : list Value;
  pc : Z;
  done : option Done
}.

Definition with_stack (st : list Value) (self : ExtendedInterpreter) :=
  mkInterp (bytecode self) (locals self) st (pc self) (done self).
Definition with_locals (ls : list Value) (self : ExtendedInterpreter) :=
  mkInterp (bytecode self) ls (stack self) (pc self) (done self).
Definition with_pc (p : Z) (self : ExtendedInterpreter) :=
  mkInterp (bytecode self) (locals self) (stack self) p (done self).
Definition with_done (d : Done) (self : ExtendedInterpreter) :=
  mkInterp (bytecode self) (locals self) (stack self) (pc self) (Some d).

(** [self.pc += 1] *)
Definition pc_incr (self : ExtendedInterpreter) := with_pc (pc self + 1) self.

(** Truth value of [self.done] in [if self.done:]: [None], the empty
    string, [0] and [False] are false. *)
Definition truthy (d : option Done) : bool :=
  match d with
  | None => false
  | Some (DStr s) => negb (String.eqb s "")
  | Some (DVal v) => negb (as_int v =? 0)
  end.

(** ** The handlers *)

Definition step_push (bc : Instr) (self : ExtendedInterpreter) : Res ExtendedInterpreter :=
  do v <- bc_value bc;
  Ok (pc_incr (with_stack (insert0 v (stack self)) self)).

Definition step_pop (bc : Instr) (self : ExtendedInterpreter) : Res ExtendedInterpreter :=
  do '(_, st) <- pop0 (stack self);
  Ok (pc_incr (with_stack st self)).

Definition step_dup (bc : Instr) (self : ExtendedInterpreter) : Res ExtendedInterpreter :=
  do top <- getitem (stack self) 0;
  Ok (pc_incr (with_stack (insert0 top (stack self)) self)).

Definition step_swap (bc : Instr) (self : ExtendedInterpreter) : Res ExtendedInterpreter :=
  do x1 <- getitem (stack self) 1;
  do x0 <- getitem (stack self) 0;
  do st <- setitem (stack self) 0 x1;
  do st <- setitem st 1 x0;
  Ok (pc_incr (with_stack st self)).

Definition step_nop (bc : Instr) (self : ExtendedInterpreter) : Res ExtendedInterpreter :=
  Ok (pc_incr self).

Definition step_add (bc : Instr) (self : ExtendedInterpreter) : Res ExtendedInterpreter :=
  do '(val1, st) <- pop0 (stack self);
  do '(val2, st) <- pop0 st;
  Ok (pc_incr (with_stack (insert0 (py_add val1 val2) st) self)).

Definition step_subtract (bc : Instr) (self : ExtendedInterpreter) : Res ExtendedInterpreter :=
  do '(val1, st) <- pop0 (stack self);
  do '(val2, st) <- pop0 st;
  Ok (pc_incr (with_stack (insert0 (py_sub val2 val1) st) self)).

Definition step_multiply (bc : Instr) (self : ExtendedInterpreter) : Res ExtendedInterpreter :=
  do '(val1, st) <- pop0 (stack self);
  do '(val2, st) <- pop0 st;
  Ok (pc_incr (with_stack (insert0 (py_mul val1 val2) st) self)).

Definition step_divide (bc : Instr) (self : ExtendedInterpreter) : Res ExtendedInterpreter :=
  do '(val1, st) <- pop0 (stack self);
  do '(val2, st) <- pop0 st;
  if py_eq val1 (VInt 0)
  then Ok (pc_incr (with_done (DStr "divide by zero") (with_stack st self)))
  else Ok (pc_incr (with_stack (insert0 (py_floordiv val2 val1) st) self)).

Definition step_if_icmpge (bc : Instr) (self : ExtendedInterpreter) : Res ExtendedInterpreter :=
  do '(val1, st) <- pop0 (stack self);
  do '(val2, st) <- pop0 st;
  if py_ge val2 val1
  then do t <- bc_target bc; Ok (with_pc t (with_stack st self))
  else Ok (pc_incr (with_stack st self)).

Definition step_if_icmpne (bc : Instr) (self : ExtendedInterpreter) : Res ExtendedInterpreter :=
  do '(val1, st) <- pop0 (stack self);
  do '(val2, st) <- pop0 st;
  if py_ne val1 val2
  then do t <- bc_target bc; Ok (with_pc t (with_stack st self))
  else Ok (pc_incr (with_stack st self)).

Definition step_load (bc : Instr) (self : ExtendedInterpreter) : Res ExtendedInterpreter :=
  do index <- bc_index bc;
  do value <- getitem (locals self) index;
  Ok (pc_incr (with_stack (insert0 value (stack self)) self)).

Definition step_store (bc : Instr) (self : ExtendedInterpreter) : Res ExtendedInterpreter :=
  do index <- bc_index bc;
  do '(v, st) <- pop0 (stack self);
  do ls <- setitem (locals self) index v;
  Ok (pc_incr (with_locals ls (with_stack st self))).

Definition step_return (bc : Instr) (self : ExtendedInterpreter) : Res ExtendedInterpreter :=
  do ty <- bc_type bc;
  do self <- match ty with
             | Some _ => do '(_, st) <- pop0 (stack self); Ok (with_stack st self)
             | None => Ok self
             end;
  Ok (with_done (DStr "ok") self).

Definition step_ireturn (bc : Instr) (self : ExtendedInterpreter) : Res ExtendedInterpreter :=
  do '(v, st) <- pop0 (stack self);
  Ok (with_done (DVal v) (with_stack st self)).

(** ** Dispatch *)

Definition Handler : Type := Instr -> ExtendedInterpreter -> Res ExtendedInterpreter.

(** [getattr(self, name, None)] for a name of the form ["step_" + opr]:
    the class has exactly these fifteen handlers. *)
Definition getattr_step (name : string) : option Handler :=
  if String.eqb name "step_push" then Some step_push
  else if String.eqb name "step_pop" then Some step_pop
  else if String.eqb name "step_dup" then Some step_dup
  else if String.eqb name "step_swap" then Some step_swap
  else if String.eqb name "step_nop" then Some step_nop
  else if String.eqb name "step_add" then Some step_add
  else if String.eqb name "step_subtract" then Some step_subtract
  else if String.eqb name "step_multiply" then Some step_multiply
  else if String.eqb name "step_divide" then Some step_divide
  else if String.eqb name "step_if_icmpge" then Some step_if_icmpge
  else if String.eqb name "step_if_icmpne" then Some step_if_icmpne
  else if String.eqb name "step_load" then Some step_load
  else if String.eqb name "step_store" then Some step_store
  else if String.eqb name "step_return" then Some step_return
  else if String.eqb name "step_ireturn" then Some step_ireturn
  else None.

(** ** The interpreter loop *)

(** What [interpret] hands back: the string [f"can't handle {opr!r}"],
    kept as its opcode, or [self.done]. *)
Inductive Returned : Type :=
| CantHandle (opr : string)
| SelfDone (d : option Done).

(** [self.bytecode[self.pc]] *)
Definition fetch (self : ExtendedInterpreter) : Res Instr :=
  getitem (bytecode self) (pc self).

(** The body of the [for] loop after the fetch, up to the test of
    [self.done]: the handler ran, there is no handler, or the handler
    raised. *)
Inductive Dispatched : Type :=
| Stepped (self : ExtendedInterpreter)
| Unhandled (opr : string)
| Faulted (e : Exn).

Definition dispatch (next_instruction : Instr) (self : ExtendedInterpreter) : Dispatched :=
  match getattr_step ("step_" ++ opr next_instruction) with
  | Some fn =>
      match fn next_instruction self with
      | Ok self' => Stepped self'
      | Raise e => Faulted e
      end
  | None => Unhandled (opr next_instruction)
  end.

(** A run: the states logged at each [STEP i] (the state in which the
    i-th instruction was fetched, in order) and how the call ended. *)
Record Run : Type := mkRun { steps : list ExtendedInterpreter; outcome : Res Returned }.

Definition logged (self : ExtendedInterpreter) (r : Run) : Run :=
  mkRun (self :: steps r) (outcome r).

(** [for i in range(limit): ... else: ...] with [fuel] iterations left.
    The fetch precedes the log lines, so a failing fetch logs nothing;
    nothing catches an exception. *)
Fixpoint for_range (fuel : nat) (self : ExtendedInterpreter) : Run :=
  match fuel with
  | O => mkRun [] (Ok (SelfDone (done (with_done (DStr "out of time") self))))
  | S fuel' =>
      match fetch self with
      | Raise e => mkRun [] (Raise e)
      | Ok next_instruction =>
          logged self
            match dispatch next_instruction self with
            | Faulted e => mkRun [] (Raise e)
            | Unhandled o => mkRun [] (Ok (CantHandle o))
            | Stepped self' =>
                if truthy (done self')
                then mkRun [] (Ok (SelfDone (done self')))
                else for_range fuel' self'
            end
      end
  end.

(** [range(limit)] is empty for [limit <= 0]. *)
Definition interpret (self : ExtendedInterpreter) (limit : Z) : Run :=
  for_range (Z.to_nat limit) self.

(** [MethodId.create_interpreter]: the resolved bytecode, the inputs as
    locals, an empty stack, [pc = 0] and [done = None]. *)
Definition create_interpreter (code : list Instr) (inputs : list Value) : ExtendedInterpreter :=
  mkInterp code inputs [] 0 None.

(** The whole run of the specification's loop contract. *)
Definition run (instructions : list Instr) (initial_locals : list Value) (step_limit : Z) : Run :=
  interpret (create_interpreter instructions initial_locals) step_limit.

(** Instruction records as the decompiler writes them. *)
Definition i_push (v : Value) : Instr := mkInstr "push" (FValue v).
Definition i_dup : Instr := mkInstr "dup" NoFields.
Definition i_swap : Instr := mkInstr "swap" NoFields.
Definition i_add : Instr := mkInstr "add" NoFields.
Definition i_subtract : Instr := mkInstr "subtract" NoFields.
Definition i_multiply : Instr := mkInstr "multiply" NoFields.
Definition i_divide : Instr := mkInstr "divide" NoFields.
Definition i_if_icmpge (t : Z) : Instr := mkInstr "if_icmpge" (FTarget t).
Definition i_if_icmpne (t : Z) : Instr := mkInstr "if_icmpne" (FTarget t).
Definition i_load (i : Z) : Instr := mkInstr "load" (FIndex i).
Definition i_store (i : Z) : Instr := mkInstr "store" (FIndex i).
Definition i_return (ty : option string) : Instr := mkInstr "return" (FType ty).
Definition i_ireturn : Instr := mkInstr "ireturn" NoFields.

(** ** Notions used to state the properties *)

(** The opcodes that have a handler. *)
Inductive Opcode : Type :=
| PUSH | POP | DUP | SWAP | NOP | ADD | SUBTRACT | MULTIPLY | DIVIDE
| IF_ICMPGE | IF_ICMPNE | LOAD | STORE | RETURN | IRETURN.

Definition opcode_of (o : string) : option Opcode :=
  if String.eqb o "push" then Some PUSH
  else if String.eqb o "pop" then Some POP
  else if String.eqb o "dup" then Some DUP
  else if String.eqb o "swap" then Some SWAP
  else if String.eqb o "nop" then Some NOP
  else if String.eqb o "add" then Some ADD
  else if String.eqb o "subtract" then Some SUBTRACT
  else if String.eqb o "multiply" then Some MULTIPLY
  else if String.eqb o "divide" then Some DIVIDE
  else if String.eqb o "if_icmpge" then Some IF_ICMPGE
  else if String.eqb o "if_icmpne" then Some IF_ICMPNE
  else if String.eqb o "load" then Some LOAD
  else if String.eqb o "store" then Some STORE
  else if String.eqb o "return" then Some RETURN
  else if String.eqb o "ireturn" then Some IRETURN
  else None.

Definition step_of (c : Opcode) : Handler :=
  match c with
  | PUSH => step_push | POP => step_pop | DUP => step_dup | SWAP => step_swap
  | NOP => step_nop | ADD => step_add | SUBTRACT => step_subtract
  | MULTIPLY => step_multiply | DIVIDE => step_divide
  | IF_ICMPGE => step_if_icmpge | IF_ICMPNE => step_if_icmpne
  | LOAD => step_load | STORE => step_store
  | RETURN => step_return | IRETURN => step_ireturn
  end.

(** One whole iteration of the loop body: fetch, then dispatch. *)
Definition iteration (self : ExtendedInterpreter) : Dispatched :=
  match fetch self with
  | Ok next_instruction => dispatch next_instruction self
  | Raise e => Faulted e
  end.

(** [advance k self]: the state after [k] iterations none of which ended
    the loop, that is, each one fetched, found its handler, ran it
    without an exception and left [self.done] false. *)
Fixpoint advance (k : nat) (self : ExtendedInterpreter) : option ExtendedInterpreter :=
  match k with
  | O => Some self
  | S k' =>
      match iteration self with
      | Stepped self' => if truthy (done self') then None else advance k' self'
      | _ => None
      end
  end.

(** The status strings. *)
Definition out_of_time : Returned := SelfDone (Some (DStr "out of time")).
Definition divide_by_zero : Done := DStr "divide by zero".

(** An index [i] that a list of length [len] accepts. *)
Definition in_range (len : nat) (i : Z) : bool :=
  (- Z.of_nat len <=? i) && (i <? Z.of_nat len).


(** How many stack entries the handler of an instruction reads. *)
Definition operands_needed (c : Opcode) (bc : Instr) : nat :=
  match c with
  | PUSH | NOP | LOAD => 0
  | POP | DUP | STORE | IRETURN => 1
  | SWAP | ADD | SUBTRACT | MULTIPLY | DIVIDE | IF_ICMPGE | IF_ICMPNE => 2
  | RETURN => match fields bc with FType (Some _) => 1 | _ => 0 end
  end.



(** ** Sample programs and states *)

(** [push 0, push 0, if_icmpge 0]: a loop that never returns. *)
Definition spin : list Instr := [i_push (VInt 0); i_push (VInt 0); i_if_icmpge 0].

(** The state in which the binary instruction [bc], alone in its
    method, finds [b] pushed first and [a] pushed last. *)
Definition at_binary (bc : Instr) (a b : Value) : ExtendedInterpreter :=
  mkInterp [bc] [] [a; b] 0 None.

(** Two locals and [True] on the stack. *)
Definition two_locals : ExtendedInterpreter :=
  mkInterp [i_store 1; i_load 1] [VInt 0; VInt 0] [VBool true] 0 None.

(** ** Stack effect of an instruction *)

(** How many entries the handler of an instruction leaves on the stack
    in place of the operands it read; [divide] leaves none when the
    divisor on top equals 0. *)
Definition produced (c : Opcode) (self : ExtendedInterpreter) : nat :=
  match c with
  | POP | NOP | IF_ICMPGE | IF_ICMPNE | STORE | RETURN | IRETURN => 0
  | PUSH | LOAD | ADD | SUBTRACT | MULTIPLY => 1
  | DUP | SWAP => 2
  | DIVIDE => match stack self with
              | a :: _ => if py_eq a (VInt 0) then 0 else 1
              | [] => 0
              end
  end.

(** The outcomes that end the loop. *)
Definition ok : Returned := SelfDone (Some (DStr "ok")).


(** ** Method identifiers *)

(** The frozen dataclass [MethodId]; a [JvmType] is one of the strings
    ["boolean"] and ["int"]. *)
Record MethodId : Type := mkMethodId {
  class_name : string;
  method_name : string;
  params : list string;
  return_type : option string
}.

(** How a call of the driver ends: with a value, in [sys.exit(status)],
    or in an exception nobody catches. *)
Inductive Driver (A : Type) : Type :=
| Went (a : A)
| SysExit (status : Z)
| Uncaught (e : Exn).
Arguments Went {A} a.
Arguments SysExit {A} status.
Arguments Uncaught {A} e.

(** The dictionary [TYPE_LOOKUP]; a key it does not have raises
    [KeyError] with that key. *)
Definition TYPE_LOOKUP (k : string) : Res string :=
  if String.eqb k "Z" then Ok "boolean"%string
  else if String.eqb k "I" then Ok "int"%string
  else Raise (KeyError k).

(** *** The regular expression of [parse] *)

(** The pattern [RE] is a sequence of escaped characters and of named
    groups that hold a greedy repetition of [.], of one or more
    characters ([plus]) or of any number. *)
Inductive Re : Type :=
| Lit (c : ascii)
| Group (name : string) (plus : bool).

Definition RE : list Re :=
  [ Group "class_name" true; Lit "."%char; Group "method_name" false;
    Lit ":"%char; Lit "("%char; Group "params" false; Lit ")"%char;
    Group "return" false ].

(** [.] matches every character but the newline. *)
Definition dot (c : ascii) : bool := negb (Ascii.eqb c "010"%char).

(** A match object: the text of each named group. *)
Definition Match : Type := list (string * string).

(** [i[name]] *)
Fixpoint group (i : Match) (name : string) : string :=
  match i with
  | [] => EmptyString
  | (n, text) :: i' => if String.eqb n name then text else group i' name
  end.

(** The group [name] ends here, with text [acc], if the rest of the
    pattern [k] matches from here. *)
Definition close_group (k : string -> option Match) (name acc s : string) : option Match :=
  match k s with
  | Some i => Some ((name, acc) :: i)
  | None => None
  end.

(** A greedy repetition of [.]: it takes every character it can and
    gives them back one by one until the rest of the pattern matches. *)
Fixpoint greedy (k : string -> option Match) (name acc s : string) : option Match :=
  match s with
  | String c s' =>
      if dot c
      then match greedy k name (acc ++ String c EmptyString) s' with
           | Some i => Some i
           | None => close_group k name acc s
           end
      else close_group k name acc s
  | EmptyString => close_group k name acc s
  end.

(** [re.match(re, s)]: a match of the pattern at the start of [s]; the
    pattern need not reach the end of [s]. *)
Fixpoint re_match (re : list Re) (s : string) : option Match :=
  match re with
  | [] => Some []
  | Lit c :: re' =>
      match s with
      | String c' s' => if Ascii.eqb c c' then re_match re' s' else None
      | EmptyString => None
      end
  | Group name false :: re' => greedy (re_match re') name EmptyString s
  | Group name true :: re' =>
      match s with
      | String c s' =>
          if dot c then greedy (re_match re') name (String c EmptyString) s' else None
      | EmptyString => None
      end
  end.

(** The characters of a string, as [for p in s] yields them. *)
Fixpoint chars (s : string) : list string :=
  match s with
  | EmptyString => []
  | String c s' => String c EmptyString :: chars s'
  end.

(** [[TYPE_LOOKUP[p] for p in ps]] *)
Fixpoint lookup_all (ps : list string) : Res (list string) :=
  match ps with
  | [] => Ok []
  | p :: ps' => do t <- TYPE_LOOKUP p; do ts <- lookup_all ps'; Ok (t :: ts)
  end.

(** [None if r == "V" else TYPE_LOOKUP[r]] *)
Definition lookup_return (r : string) : Res (option string) :=
  if String.eqb r "V" then Ok None else do t <- TYPE_LOOKUP r; Ok (Some t).

(** [MethodId.parse] *)
Definition parse (name : string) : Driver MethodId :=
  match re_match RE name with
  | None => SysExit (-1)
  | Some i =>
      match lookup_all (chars (group i "params")) with
      | Raise e => Uncaught e
      | Ok ps =>
          match lookup_return (group i "return") with
          | Raise e => Uncaught e
          | Ok rt => Went (mkMethodId (group i "class_name") (group i "method_name") ps rt)
          end
      end
  end.

(** *** Finding the method in the decompiled class *)

(** A method of the decompiled class file: [m["name"]], for each entry
    [t] of [m["params"]] the string [t["type"]["base"]] ([None] when the
    type has no ["base"] key, as an array type), and
    [m["code"]["bytecode"]]. *)
Record Method : Type := mkMethod {
  m_name : string;
  m_params : list (option string);
  m_bytecode : list Instr
}.

(** [all(p == t["type"]["base"] for p, t in zip(ps, ts))]: the
    generator stops at the first difference. *)
Fixpoint all_base_equal (ps : list string) (ts : list (option string)) : Res bool :=
  match ps, ts with
  | p :: ps', t :: ts' =>
      match t with
      | Some base => if String.eqb p base then all_base_equal ps' ts' else Ok false
      | None => Raise (KeyError "base")
      end
  | _, _ => Ok true
  end.

(** The condition of the [if] in [load]; [and] evaluates its right
    operand only when the left one is true. *)
Definition is_method (self : MethodId) (m : Method) : Res bool :=
  if String.eqb (m_name m) (method_name self)
  then if Nat.eqb (length (params self)) (length (m_params m))
       then all_base_equal (params self) (m_params m)
       else Ok false
  else Ok false.

(** [MethodId.load] on the list [classfile["methods"]] read from the
    class file: the first method that fits, [sys.exit(-1)] when the loop
    runs out. *)
Fixpoint load (self : MethodId) (methods : list Method) : Driver Method :=
  match methods with
  | [] => SysExit (-1)
  | m :: methods' =>
      match is_method self m with
      | Ok true => Went m
      | Ok false => load self methods'
      | Raise e => Uncaught e
      end
  end.

(** [MethodId.create_interpreter] *)
Definition MethodId_create_interpreter
    (self : MethodId) (methods : list Method) (inputs : list Value) : Driver ExtendedInterpreter :=
  match load self methods with
  | Went method => Went (create_interpreter (m_bytecode method) inputs)
  | SysExit status => SysExit status
  | Uncaught e => Uncaught e
  end.

(** Strings all of whose characters satisfy a test, and strings that do
    not contain a given character. *)
Fixpoint all_chars (P : ascii -> bool) (s : string) : bool :=
  match s with
  | EmptyString => true
  | String c s' => P c && all_chars P s'
  end.

Definition lacks (c : ascii) (s : string) : bool :=
  all_chars (fun c' => negb (Ascii.eqb c c')) s.

(** The characters that [TYPE_LOOKUP] knows. *)
Definition is_type_char (c : ascii) : bool :=
  Ascii.eqb c "Z"%char || Ascii.eqb c "I"%char.

(** ** Sample identifiers and classes *)

(** [push 5, push 3, add, ireturn] *)
Definition add_method : list Instr :=
  [i_push (VInt 5); i_push (VInt 3); i_add; i_ireturn].

(** A class with three methods named [f]: one taking an array (its type
    has no ["base"]), one taking an [int] and one taking a [boolean]. *)
Definition f_of_array : Method := mkMethod "f" [None] [i_return None].
Definition f_of_int : Method := mkMethod "f" [Some "int"%string] add_method.
Definition f_of_boolean : Method := mkMethod "f" [Some "boolean"%string] [i_return None].
Definition g_of_nothing : Method := mkMethod "g" [] [i_return None].

Definition f_int_id : MethodId := mkMethodId "a.B" "f" ["int"%string] (Some "int"%string).

Definition m_zi_id : MethodId := mkMethodId "a.B" "m" ["boolean"%string; "int"%string] None.

(** ** Basic facts about the loop *)

Lemma getattr_step_opcode (o : string) :
  getattr_step ("step_" ++ o) = step_of <$> opcode_of o.
Proof.
  unfold getattr_step, opcode_of. cbn.
  repeat (destruct (String.eqb o _); [reflexivity|]). reflexivity.
Qed.

Lemma for_range_S (n : nat) (self : ExtendedInterpreter) :
  for_range (S n) self =
  match fetch self with
  | Raise e => mkRun [] (Raise e)
  | Ok bc =>
      logged self
        match dispatch bc self with
        | Faulted e => mkRun [] (Raise e)
        | Unhandled o => mkRun [] (Ok (CantHandle o))
        | Stepped self' =>
            if truthy (done self')
            then mkRun [] (Ok (SelfDone (done self')))
            else for_range n self'
        end
  end.
Proof. reflexivity. Qed.

(** The four ways an iteration with fuel left can go. *)
Lemma for_range_fault (n : nat) (self : ExtendedInterpreter) (e : Exn) :
  iteration self = Faulted e -> outcome (for_range (S n) self) = Raise e.
Proof.
  unfold iteration. rewrite for_range_S.
  destruct (fetch self) as [bc|e']; [|intros [= ->]; reflexivity].
  intros ->. reflexivity.
Qed.

Lemma for_range_unhandled (n : nat) (self : ExtendedInterpreter) (o : string) :
  iteration self = Unhandled o ->
  for_range (S n) self = mkRun [self] (Ok (CantHandle o)).
Proof.
  unfold iteration. rewrite for_range_S.
  destruct (fetch self) as [bc|e']; [|discriminate].
  intros ->. reflexivity.
Qed.

Lemma for_range_break (n : nat) (self self' : ExtendedInterpreter) :
  iteration self = Stepped self' -> truthy (done self') = true ->
  for_range (S n) self = mkRun [self] (Ok (SelfDone (done self'))).
Proof.
  unfold iteration. rewrite for_range_S.
  destruct (fetch self) as [bc|e']; [|discriminate].
  intros -> ->. reflexivity.
Qed.

Lemma for_range_continue (n : nat) (self self' : ExtendedInterpreter) :
  iteration self = Stepped self' -> truthy (done self') = false ->
  for_range (S n) self = logged self (for_range n self').
Proof.
  unfold iteration. rewrite for_range_S.
  destruct (fetch self) as [bc|e']; [|discriminate].
  intros -> ->. reflexivity.
Qed.

(** After [k] iterations that did not end the loop, the run goes on from
    the state reached, with [k] states logged so far. *)
Lemma for_range_advance (k n : nat) (self s : ExtendedInterpreter) :
  advance k self = Some s ->
  outcome (for_range (k + n) self) = outcome (for_range n s)
  /\ length (steps (for_range (k + n) self)) = (k + length (steps (for_range n s)))%nat.
Proof.
  revert self. induction k as [|k IH]; intros self; simpl advance.
  - intros [= ->]. split; reflexivity.
  - destruct (iteration self) as [self'| |] eqn:Hit; try discriminate.
    destruct (truthy (done self')) eqn:Ht; try discriminate.
    intros Hadv. destruct (IH _ Hadv) as [Ho Hl].
    change (S k + n)%nat with (S (k + n)).
    rewrite (for_range_continue _ _ _ Hit Ht). simpl. rewrite Ho, Hl. split; reflexivity.
Qed.

Lemma for_range_exhausted (self : ExtendedInterpreter) :
  for_range 0 self = mkRun [] (Ok out_of_time).
Proof. reflexivity. Qed.

(** ** What a handler does to [self.done], [self.bytecode] *)

Ltac unfold_steps :=
  unfold step_of, step_push, step_pop, step_dup, step_swap, step_nop, step_add,
    step_subtract, step_multiply, step_divide, step_if_icmpge, step_if_icmpne,
    step_load, step_store, step_return, step_ireturn,
    bc_value, bc_index, bc_target, bc_type, bind, pop0 in *.

(** Case analysis on the innermost scrutinee of a handler's result. *)
Ltac split_step H :=
  repeat match type of H with
         | context [match ?x with _ => _ end] =>
             lazymatch x with
             | context [match _ with _ => _ end] => fail
             | _ => destruct x eqn:?; simpl in H; try discriminate H
             end
         end.

(** A handler leaves [self.done] alone or sets it to ["ok"], to
    ["divide by zero"] or to a value. *)
Lemma step_done_cases (c : Opcode) (bc : Instr) (self self' : ExtendedInterpreter) :
  step_of c bc self = Ok self' ->
  done self' = done self
  \/ done self' = Some (DStr "ok")
  \/ done self' = Some divide_by_zero
  \/ exists v, done self' = Some (DVal v).
Proof.
  intros H. destruct c; unfold_steps; split_step H;
    injection H as <-; simpl; eauto.
Qed.

Lemma iteration_stepped (self self' : ExtendedInterpreter) :
  iteration self = Stepped self' ->
  exists bc c, fetch self = Ok bc /\ opcode_of (opr bc) = Some c
               /\ step_of c bc self = Ok self'.
Proof.
  unfold iteration, dispatch. destruct (fetch self) as [bc|]; [|discriminate].
  rewrite getattr_step_opcode.
  destruct (opcode_of (opr bc)) as [c|] eqn:Hc; simpl; [|discriminate].
  destruct (step_of c bc self) eqn:Hs; [|discriminate].
  intros [= <-]. exists bc, c. auto.
Qed.

Lemma iteration_not_out_of_time (self self' : ExtendedInterpreter) :
  iteration self = Stepped self' ->
  done self <> Some (DStr "out of time") ->
  done self' <> Some (DStr "out of time").
Proof.
  intros Hit Hd. destruct (iteration_stepped _ _ Hit) as (bc & c & _ & _ & Hs).
  destruct (step_done_cases _ _ _ _ Hs) as [E|[E|[E|[v E]]]]; rewrite E;
    try assumption; discriminate.
Qed.

(** A run that ends with ["out of time"] went through all its iterations. *)
Lemma out_of_time_advance (n : nat) (self : ExtendedInterpreter) :
  done self <> Some (DStr "out of time") ->
  outcome (for_range n self) = Ok out_of_time ->
  exists s, advance n self = Some s.
Proof.
  revert self. induction n as [|n IH]; intros self Hd Ho.
  - simpl. eauto.
  - simpl advance. destruct (iteration self) as [self'|o|e] eqn:Hit.
    + pose proof (iteration_not_out_of_time _ _ Hit Hd) as Hd'.
      destruct (truthy (done self')) eqn:Ht.
      * rewrite (for_range_break _ _ _ Hit Ht) in Ho. simpl in Ho.
        injection Ho as Ho. contradiction.
      * rewrite (for_range_continue _ _ _ Hit Ht) in Ho. simpl in Ho. eauto.
    + rewrite (for_range_unhandled _ _ _ Hit) in Ho. discriminate.
    + rewrite (for_range_fault _ _ _ Hit) in Ho. discriminate.
Qed.

Lemma advance_le (n m : nat) (self s : ExtendedInterpreter) :
  advance n self = Some s -> (m <= n)%nat -> exists s', advance m self = Some s'.
Proof.
  revert m self. induction n as [|n IH]; intros m self Ha Hm.
  - assert (m = 0%nat) as -> by lia. eauto.
  - destruct m as [|m]; [simpl; eauto|].
    simpl in *. destruct (iteration self) as [self'| |]; try discriminate.
    destruct (truthy (done self')); try discriminate.
    apply (IH m self' Ha). lia.
Qed.

Lemma advance_out_of_time (n : nat) (self s : ExtendedInterpreter) :
  advance n self = Some s ->
  outcome (for_range n self) = Ok out_of_time
  /\ length (steps (for_range n self)) = n.
Proof.
  intros Ha. destruct (for_range_advance n 0 _ _ Ha) as [Ho Hl].
  rewrite Nat.add_0_r in Ho, Hl. rewrite Ho, Hl. simpl. split; [reflexivity|lia].
Qed.


(** C5: if [run] with step limit [L] yields ["out of time"], so does
    [run] with any [L' < L]; the two runs dispatch [L'] and [L]
    instructions (none for a limit below 0), so the smaller limit never
    gets there later and, when [L] is positive, gets there sooner. *)
Theorem out_of_time_monotone
    (code : list Instr) (inputs : list Value) (L L' : Z) :
  outcome (run code inputs L) = Ok (SelfDone (Some (DStr "out of time"))) ->
  L' < L ->
  outcome (run code inputs L') = Ok (SelfDone (Some (DStr "out of time")))
  /\ length (steps (run code inputs L')) = Z.to_nat L'
  /\ length (steps (run code inputs L)) = Z.to_nat L
  /\ (length (steps (run code inputs L')) <= length (steps (run code inputs L)))%nat
  /\ (0 < L -> (length (steps (run code inputs L')) < length (steps (run code inputs L)))%nat).
Proof.
  unfold run, interpret. intros Ho Hlt.
  assert (done (create_interpreter code inputs) <> Some (DStr "out of time")) as Hd
    by discriminate.
  destruct (out_of_time_advance _ _ Hd Ho) as [s Ha].
  destruct (advance_le _ (Z.to_nat L') _ _ Ha) as [s' Ha']; [lia|].
  destruct (advance_out_of_time _ _ _ Ha) as [_ Hl].
  destruct (advance_out_of_time _ _ _ Ha') as [Ho' Hl'].
  rewrite Hl, Hl'. repeat split; try assumption; lia.
Qed.

(** ** The arithmetic handlers *)

(** The quotient Python's [//] computes is the floor of the exact one:
    the remainder it leaves has the sign of the divisor. *)
Lemma py_floordiv_floor (x y : Value) :
  as_int y <> 0 ->
  exists q r, py_floordiv x y = VInt q
              /\ as_int x = as_int y * q + r
              /\ (0 <= r < as_int y \/ as_int y < r <= 0).
Proof.
  intros Hy. exists (as_int x / as_int y), (as_int x mod as_int y).
  split; [reflexivity|]. split; [apply Z.div_mod; assumption|].
  destruct (Z.lt_total (as_int y) 0) as [Hn|[H0|Hp]]; [|contradiction|].
  - right. apply Z.mod_neg_bound. assumption.
  - left. apply Z.mod_pos_bound. assumption.
Qed.


(** C6: [divide] pushes the floor of the earlier-pushed operand [b] by
    the later-pushed operand [a]: the quotient [q] with [b = a*q + r] and
    [r] between 0 and [a]; pushing -7 then 2 and dividing leaves -4. *)
Theorem divide_floor
    (bc : Instr) (self : ExtendedInterpreter) (a b : Value) (rest : list Value) :
  stack self = a :: b :: rest ->
  as_int a <> 0 ->
  (exists q r,
     step_divide bc self = Ok (pc_incr (with_stack (VInt q :: rest) self))
     /\ as_int b = as_int a * q + r
     /\ (0 <= r < as_int a \/ as_int a < r <= 0))
  /\ (do s <- step_push (i_push (VInt (-7))) (create_interpreter [] []);
      do s <- step_push (i_push (VInt 2)) s;
      do s <- step_divide i_divide s;
      Ok (stack s)) = Ok [VInt (-4)].
Proof.
  intros Hst Ha. split; [|reflexivity].
  destruct (py_floordiv_floor b a Ha) as (q & r & Hq & Hdiv & Hr).
  exists q, r. split; [|split; assumption].
  unfold step_divide. rewrite Hst. simpl.
  unfold py_eq. simpl as_int at 2.
  destruct (Z.eqb_spec (as_int a) 0) as [E|_]; [contradiction|].
  unfold insert0. rewrite Hq. reflexivity.
Qed.

(** C7: [subtract] pops [a] (the later-pushed top), then [b], and pushes
    [b - a]; pushing 10 then 3 and subtracting leaves 7 on top. *)
Theorem subtract_operand_order
    (bc : Instr) (self : ExtendedInterpreter) (a b : Value) (rest : list Value) :
  stack self = a :: b :: rest ->
  step_subtract bc self
  = Ok (pc_incr (with_stack (VInt (as_int b - as_int a) :: rest) self))
  /\ (do s <- step_push (i_push (VInt 10)) (create_interpreter [] []);
      do s <- step_push (i_push (VInt 3)) s;
      do s <- step_subtract i_subtract s;
      Ok (stack s)) = Ok [VInt 7].
Proof.
  intros Hst. split; [|reflexivity].
  unfold step_subtract. rewrite Hst. reflexivity.
Qed.

(** C10: the arithmetic opcodes take boolean operands, [True] counting
    as 1 and [False] as 0: none of them raises, [add], [subtract] and
    [multiply] push the integer result, [divide] pushes the integer
    quotient unless the divisor counts as 0, and [add] on [True] and
    [True] pushes the integer 2. *)
Theorem arithmetic_coerces_booleans
    (bc : Instr) (self : ExtendedInterpreter) (a b : Value) (rest : list Value) :
  stack self = a :: b :: rest ->
  as_int (VBool true) = 1 /\ as_int (VBool false) = 0
  /\ step_add bc self
     = Ok (pc_incr (with_stack (VInt (as_int a + as_int b) :: rest) self))
  /\ step_subtract bc self
     = Ok (pc_incr (with_stack (VInt (as_int b - as_int a) :: rest) self))
  /\ step_multiply bc self
     = Ok (pc_incr (with_stack (VInt (as_int a * as_int b) :: rest) self))
  /\ step_divide bc self
     = Ok (if as_int a =? 0
           then pc_incr (with_done (DStr "divide by zero") (with_stack rest self))
           else pc_incr (with_stack (VInt (as_int b / as_int a) :: rest) self))
  /\ (do s <- step_add i_add (with_stack [VBool true; VBool true] self); Ok (stack s))
     = Ok [VInt 2]
  /\ outcome (run [i_load 0; i_load 1; i_add; i_ireturn] [VBool true; VBool true] 100)
     = Ok (SelfDone (Some (DVal (VInt 2)))).
Proof.
  intros Hst. unfold step_add, step_subtract, step_multiply, step_divide.
  rewrite Hst. simpl. unfold py_eq. simpl as_int.
  repeat (split; [reflexivity|]).
  split; [|split; reflexivity].
  destruct (as_int a =? 0); reflexivity.
Qed.

(** ** Locals *)

Lemma norm_index_in_range (len : nat) (i : Z) :
  in_range len i = true -> exists n, norm_index len i = Some n /\ (n < len)%nat.
Proof.
  unfold in_range, norm_index. intros H.
  apply andb_true_iff in H as [Hlo Hhi].
  apply Z.leb_le in Hlo. apply Z.ltb_lt in Hhi.
  destruct (Z.leb_spec 0 i) as [H0|H0]; simpl.
  - destruct (Z.ltb_spec i (Z.of_nat len)) as [_|?]; [|lia].
    exists (Z.to_nat i). split; [reflexivity|lia].
  - destruct (Z.leb_spec (- Z.of_nat len) i) as [_|?]; [|lia].
    destruct (Z.ltb_spec i 0) as [_|?]; [|lia]. simpl.
    exists (Z.to_nat (Z.of_nat len + i)). split; [reflexivity|lia].
Qed.




(** Reading back the slot just written. *)
Lemma getitem_setitem {A : Type} (l : list A) (i : Z) (x : A) :
  in_range (length l) i = true ->
  exists l', setitem l i x = Ok l' /\ length l' = length l /\ getitem l' i = Ok x.
Proof.
  intros H. destruct (norm_index_in_range _ _ H) as (n & Hn & Hlt).
  exists (<[n:=x]> l). unfold setitem, getitem. rewrite Hn.
  split; [reflexivity|]. split; [apply length_insert|].
  rewrite length_insert, Hn, list_lookup_insert_eq by assumption. reflexivity.
Qed.

(** C9: for every value [V], integer or boolean, and every index [i]
    valid for the locals, [store] of [V] into slot [i] followed by [load]
    of slot [i] pushes exactly [V] back where it was popped from. *)
Theorem store_load_roundtrip
    (self : ExtendedInterpreter) (V : Value) (rest : list Value) (i : Z) :
  stack self = V :: rest ->
  in_range (length (locals self)) i = true ->
  exists s1 s2,
    step_store (i_store i) self = Ok s1
    /\ step_load (i_load i) s1 = Ok s2
    /\ stack s1 = rest
    /\ getitem (locals s1) i = Ok V
    /\ stack s2 = V :: rest
    /\ locals s2 = locals s1.
Proof.
  intros Hst Hi.
  destruct (getitem_setitem (locals self) i V Hi) as (ls & Hset & _ & Hget).
  exists (pc_incr (with_locals ls (with_stack rest self))).
  eexists. unfold step_store, step_load. simpl. rewrite Hst. simpl.
  rewrite Hset. simpl. rewrite Hget. simpl.
  repeat split; reflexivity.
Qed.

(** ** Exceptions *)

Lemma getitem_head {A : Type} (x : A) (l : list A) : getitem (x :: l) 0 = Ok x.
Proof. reflexivity. Qed.

Lemma setitem_head {A : Type} (x z : A) (l : list A) : setitem (x :: l) 0 z = Ok (z :: l).
Proof. reflexivity. Qed.

Lemma norm_index_second (n : nat) : norm_index (S (S n)) 1 = Some 1%nat.
Proof.
  unfold norm_index. change (0 <=? 1) with true. simpl andb.
  destruct (Z.ltb_spec 1 (Z.of_nat (S (S n)))); [reflexivity|lia].
Qed.

Lemma getitem_second {A : Type} (x y : A) (l : list A) : getitem (x :: y :: l) 1 = Ok y.
Proof. unfold getitem. simpl length. rewrite norm_index_second. reflexivity. Qed.

Lemma setitem_second {A : Type} (x y z : A) (l : list A) :
  setitem (x :: y :: l) 1 z = Ok (x :: z :: l).
Proof. unfold setitem. simpl length. rewrite norm_index_second. reflexivity. Qed.


(** No handler touches the bytecode. *)
Lemma step_bytecode (c : Opcode) (bc : Instr) (self self' : ExtendedInterpreter) :
  step_of c bc self = Ok self' -> bytecode self' = bytecode self.
Proof.
  intros H. destruct c; unfold_steps; split_step H;
    injection H as <-; reflexivity.
Qed.











(** ** Termination of the loop by an outcome *)

(** An iteration that leaves a true [self.done] is the last one: the run
    logs nothing after it and returns that value. *)
Lemma truthy_outcome_absorbing (n k : nat) (self s s' : ExtendedInterpreter) :
  (k < n)%nat ->
  advance k self = Some s ->
  iteration s = Stepped s' ->
  truthy (done s') = true ->
  outcome (for_range n self) = Ok (SelfDone (done s'))
  /\ length (steps (for_range n self)) = S k.
Proof.
  intros Hk Ha Hit Ht.
  replace n with (k + S (n - S k))%nat by lia.
  destruct (for_range_advance k (S (n - S k)) _ _ Ha) as [Ho Hl].
  rewrite Ho, Hl, (for_range_break _ _ _ Hit Ht). simpl. split; [reflexivity|lia].
Qed.

(** An instruction without a handler ends the run on the spot. *)
Lemma unhandled_absorbing (n k : nat) (self s : ExtendedInterpreter) (o : string) :
  (k < n)%nat ->
  advance k self = Some s ->
  iteration s = Unhandled o ->
  outcome (for_range n self) = Ok (CantHandle o)
  /\ length (steps (for_range n self)) = S k.
Proof.
  intros Hk Ha Hit.
  replace n with (k + S (n - S k))%nat by lia.
  destruct (for_range_advance k (S (n - S k)) _ _ Ha) as [Ho Hl].
  rewrite Ho, Hl, (for_range_unhandled _ _ _ Hit). simpl. split; [reflexivity|lia].
Qed.

(** Where the sentence of C1 holds: an [ireturn] reached within the
    budget with a value other than [0] and [False] on top of the stack
    makes [run] return that value. *)
Lemma ireturn_returns_nonzero
    (code : list Instr) (inputs : list Value) (limit : Z)
    (k : nat) (s : ExtendedInterpreter) (bc : Instr) (v : Value) (rest : list Value) :
  (k < Z.to_nat limit)%nat ->
  advance k (create_interpreter code inputs) = Some s ->
  fetch s = Ok bc ->
  opr bc = "ireturn"%string ->
  stack s = v :: rest ->
  as_int v <> 0 ->
  outcome (run code inputs limit) = Ok (SelfDone (Some (DVal v)))
  /\ length (steps (run code inputs limit)) = S k.
Proof.
  intros Hk Ha Hf Ho Hst Hv. unfold run, interpret.
  apply (truthy_outcome_absorbing _ k _ s (with_done (DVal v) (with_stack rest s)));
    try assumption.
  - unfold iteration, dispatch. rewrite Hf, Ho. simpl.
    unfold step_ireturn. rewrite Hst. reflexivity.
  - simpl. destruct (Z.eqb_spec (as_int v) 0); [contradiction|reflexivity].
Qed.

(** C1 on the code: an [ireturn] of 0 does not end the loop, because
    [if self.done:] takes the outcome 0 for no outcome.  The next
    iteration runs [ireturn] again: on an empty stack the pop raises
    [IndexError], on a stack with 5 below the 0 the run returns 5, and
    with no iteration left the run returns ["out of time"]. *)
Theorem ireturn_zero_not_returned :
  outcome (run [i_push (VInt 0); i_ireturn] [] 100) = Raise IndexError
  /\ outcome (run [i_push (VInt 5); i_push (VInt 0); i_ireturn] [] 100)
     = Ok (SelfDone (Some (DVal (VInt 5))))
  /\ outcome (run [i_push (VInt 0); i_ireturn] [] 2)
     = Ok (SelfDone (Some (DStr "out of time"))).
Proof. repeat split; reflexivity. Qed.

(** C2 on the code: in the run of [push 5, push 0, ireturn] the third
    dispatch sets the outcome 0, and a fourth dispatch follows, of the
    same [ireturn] at pc 2 with [self.done] already 0; the run returns 5. *)
Theorem dispatch_after_zero_outcome :
  map (fun s => (pc s, stack s, done s))
      (steps (run [i_push (VInt 5); i_push (VInt 0); i_ireturn] [] 100))
  = [ (0, [], None);
      (1, [VInt 5], None);
      (2, [VInt 0; VInt 5], None);
      (2, [VInt 5], Some (DVal (VInt 0))) ]
  /\ outcome (run [i_push (VInt 5); i_push (VInt 0); i_ireturn] [] 100)
     = Ok (SelfDone (Some (DVal (VInt 5)))).
Proof. split; reflexivity. Qed.

(** ** The properties at concrete inputs *)


(** C5 on [spin] with the limits 7 and 3. *)
Lemma out_of_time_monotone_witness :
  outcome (run spin [] 3) = Ok (SelfDone (Some (DStr "out of time")))
  /\ length (steps (run spin [] 3)) = Z.to_nat 3
  /\ length (steps (run spin [] 7)) = Z.to_nat 7
  /\ (length (steps (run spin [] 3)) <= length (steps (run spin [] 7)))%nat
  /\ (0 < 7 -> (length (steps (run spin [] 3)) < length (steps (run spin [] 7)))%nat).
Proof.
  apply (out_of_time_monotone spin [] 7 3); [reflexivity|lia].
Defined.


(** C6 on -7 divided by 2. *)
Lemma divide_floor_witness :
  exists q r,
    step_divide i_divide (at_binary i_divide (VInt 2) (VInt (-7)))
    = Ok (pc_incr (with_stack [VInt q] (at_binary i_divide (VInt 2) (VInt (-7)))))
    /\ as_int (VInt (-7)) = as_int (VInt 2) * q + r
    /\ (0 <= r < as_int (VInt 2) \/ as_int (VInt 2) < r <= 0).
Proof.
  apply (divide_floor i_divide (at_binary i_divide (VInt 2) (VInt (-7)))
           (VInt 2) (VInt (-7)) []); [reflexivity|simpl; lia].
Defined.

(** C7 on 10 and 3. *)
Lemma subtract_operand_order_witness :
  step_subtract i_subtract (at_binary i_subtract (VInt 3) (VInt 10))
  = Ok (pc_incr (with_stack [VInt (10 - 3)] (at_binary i_subtract (VInt 3) (VInt 10)))).
Proof.
  apply (subtract_operand_order i_subtract (at_binary i_subtract (VInt 3) (VInt 10))
           (VInt 3) (VInt 10) []); reflexivity.
Defined.

(** C10 on [True] and [True]. *)
Lemma arithmetic_coerces_booleans_witness :
  step_add i_add (at_binary i_add (VBool true) (VBool true))
  = Ok (pc_incr (with_stack [VInt (1 + 1)] (at_binary i_add (VBool true) (VBool true)))).
Proof.
  apply (arithmetic_coerces_booleans i_add (at_binary i_add (VBool true) (VBool true))
           (VBool true) (VBool true) []); reflexivity.
Defined.

(** C9 on [True] stored into slot 1 of two locals. *)
Lemma store_load_roundtrip_witness :
  exists s1 s2,
    step_store (i_store 1) two_locals = Ok s1
    /\ step_load (i_load 1) s1 = Ok s2
    /\ stack s1 = []
    /\ getitem (locals s1) 1 = Ok (VBool true)
    /\ stack s2 = [VBool true]
    /\ locals s2 = locals s1.
Proof.
  apply (store_load_roundtrip two_locals (VBool true) [] 1); reflexivity.
Defined.


(** ** Scenarios *)

Example scenario_add :
  outcome (run [i_push (VInt 5); i_push (VInt 3); i_add; i_ireturn] [] 100)
  = Ok (SelfDone (Some (DVal (VInt 8)))).
Proof. reflexivity. Qed.

Example scenario_branch :
  outcome (run [i_load 0; i_load 1; i_if_icmpge 5; i_push (VInt 1); i_ireturn;
                i_push (VInt 2); i_ireturn] [VInt 3; VInt 5] 100)
  = Ok (SelfDone (Some (DVal (VInt 1)))).
Proof. reflexivity. Qed.

Example scenario_unknown_opcode :
  run [i_push (VInt 1); mkInstr "invokestatic" NoFields; i_ireturn] [] 100
  = mkRun [create_interpreter [i_push (VInt 1); mkInstr "invokestatic" NoFields; i_ireturn] [];
           mkInterp [i_push (VInt 1); mkInstr "invokestatic" NoFields; i_ireturn] []
                    [VInt 1] 1 None]
          (Ok (CantHandle "invokestatic")).
Proof. reflexivity. Qed.

Example scenario_void_return :
  outcome (run [i_return None] [] 100) = Ok (SelfDone (Some (DStr "ok"))).
Proof. reflexivity. Qed.

Example scenario_negative_limit :
  run [i_return None] [] (-3) = mkRun [] (Ok out_of_time).
Proof. reflexivity. Qed.

(** ** Effects of the handlers on stack, pc and locals *)

Ltac effect_cases H :=
  unfold_steps; unfold getitem, setitem in H; split_step H;
  injection H as <-; simpl in *.

(** X1: a handler that returns leaves the stack with as many entries as
    it had, less the operands the instruction reads, plus the entries it
    puts back. *)
Theorem step_stack_effect
    (c : Opcode) (bc : Instr) (self self' : ExtendedInterpreter) :
  step_of c bc self = Ok self' ->
  (length (stack self') + operands_needed c bc
   = length (stack self) + produced c self)%nat.
Proof.
  intros H. unfold operands_needed, produced.
  destruct c; effect_cases H; rewrite ?length_insert; simpl;
    repeat match goal with
           | E : _ = ?r |- context [match ?r with _ => _ end] => rewrite <- E
           | E : ?l = _ |- context [match ?l with _ => _ end] => rewrite E
           | E : _ = true |- _ => rewrite E
           | E : _ = false |- _ => rewrite E
           end; simpl; try lia.
Qed.

(** X2: a handler that returns moves the pc by one, except that a
    branch may set it to the target of the instruction and that [return]
    and [ireturn] leave it where it is. *)
Theorem step_pc_effect
    (c : Opcode) (bc : Instr) (self self' : ExtendedInterpreter) :
  step_of c bc self = Ok self' ->
  match c with
  | RETURN | IRETURN => pc self' = pc self
  | IF_ICMPGE | IF_ICMPNE => pc self' = pc self + 1 \/ fields bc = FTarget (pc self')
  | _ => pc self' = pc self + 1
  end.
Proof.
  intros H. destruct c; effect_cases H; auto.
Qed.

Lemma step_locals_length (c : Opcode) (bc : Instr) (self self' : ExtendedInterpreter) :
  step_of c bc self = Ok self' -> length (locals self') = length (locals self).
Proof.
  intros H. destruct c; effect_cases H; rewrite ?length_insert; reflexivity.
Qed.

(** Only [store] writes the locals. *)
Lemma step_locals_frame (c : Opcode) (bc : Instr) (self self' : ExtendedInterpreter) :
  step_of c bc self = Ok self' -> c <> STORE -> locals self' = locals self.
Proof.
  intros H Hc. destruct c; try contradiction; effect_cases H; reflexivity.
Qed.

(** An invariant of the states from which the loop goes on holds of
    every state the run logs. *)
Lemma steps_invariant (P : ExtendedInterpreter -> Prop) (n : nat) (self : ExtendedInterpreter) :
  (forall s s', P s -> iteration s = Stepped s' -> truthy (done s') = false -> P s') ->
  P self ->
  Forall P (steps (for_range n self)).
Proof.
  intros Hstep. revert self. induction n as [|n IH]; intros self HP.
  - constructor.
  - rewrite for_range_S. destruct (fetch self) as [bc|e] eqn:Hf; [|constructor].
    assert (iteration self = dispatch bc self) as Hit by (unfold iteration; rewrite Hf; reflexivity).
    destruct (dispatch bc self) as [self'|o|e]; simpl; constructor; try assumption;
      try constructor.
    destruct (truthy (done self')) eqn:Ht; simpl; [constructor|].
    apply IH. exact (Hstep _ _ HP Hit Ht).
Qed.

(** X3: in every state in which a run dispatches an instruction, the
    bytecode is the method's, the locals are as many as the inputs, and
    [self.done] is false: no handler alters the bytecode, [store] never
    adds a slot, and no instruction is dispatched once [self.done] is
    true. *)
Theorem run_invariants (code : list Instr) (inputs : list Value) (limit : Z) :
  Forall (fun s => bytecode s = code
                   /\ length (locals s) = length inputs
                   /\ truthy (done s) = false)
         (steps (run code inputs limit)).
Proof.
  unfold run, interpret. apply steps_invariant.
  - intros s s' (Hb & Hl & _) Hit Ht.
    destruct (iteration_stepped _ _ Hit) as (bc & c & _ & _ & Hs).
    rewrite (step_bytecode _ _ _ _ Hs), (step_locals_length _ _ _ _ Hs). auto.
  - repeat split; reflexivity.
Qed.

(** X4: the run never dispatches more instructions than the step limit
    allows, and none for a limit of 0 or less. *)
Theorem steps_within_budget (code : list Instr) (inputs : list Value) (limit : Z) :
  (length (steps (run code inputs limit)) <= Z.to_nat limit)%nat.
Proof.
  unfold run, interpret. generalize (create_interpreter code inputs) as self.
  induction (Z.to_nat limit) as [|n IH]; intros self.
  - simpl. lia.
  - rewrite for_range_S. destruct (fetch self) as [bc|e]; simpl; [|lia].
    destruct (dispatch bc self) as [self'|o|e]; simpl; try lia.
    destruct (truthy (done self')); simpl; [lia|].
    specialize (IH self'). lia.
Qed.



(** ** How a run can end *)

Lemma iteration_unhandled_iff (s : ExtendedInterpreter) (o : string) :
  iteration s = Unhandled o
  <-> exists bc, fetch s = Ok bc /\ opr bc = o /\ opcode_of o = None.
Proof.
  unfold iteration, dispatch. split.
  - destruct (fetch s) as [bc|]; [|discriminate].
    rewrite getattr_step_opcode.
    destruct (opcode_of (opr bc)) as [c|] eqn:Hc; simpl.
    + destruct (step_of c bc s); discriminate.
    + intros [= <-]. eauto.
  - intros (bc & -> & <- & Hc). rewrite getattr_step_opcode, Hc. reflexivity.
Qed.



(** What a run returns from a state whose [self.done] is false. *)
Lemma for_range_outcomes (n : nat) (self : ExtendedInterpreter) (r : Returned) :
  truthy (done self) = false ->
  outcome (for_range n self) = Ok r ->
  (exists o, r = CantHandle o /\ opcode_of o = None)
  \/ r = ok
  \/ r = SelfDone (Some divide_by_zero)
  \/ r = out_of_time
  \/ exists v, r = SelfDone (Some (DVal v)) /\ as_int v <> 0.
Proof.
  revert self. induction n as [|n IH]; intros self Hd Ho.
  - injection Ho as <-. auto.
  - destruct (iteration self) as [self'|o|e] eqn:Hit.
    + destruct (truthy (done self')) eqn:Ht.
      * rewrite (for_range_break _ _ _ Hit Ht) in Ho. injection Ho as <-.
        destruct (iteration_stepped _ _ Hit) as (bc & c & _ & _ & Hs).
        destruct (step_done_cases _ _ _ _ Hs) as [E|[E|[E|[v E]]]].
        -- rewrite E, Hd in Ht. discriminate.
        -- rewrite E. auto.
        -- rewrite E. auto.
        -- rewrite E in *. do 4 right. exists v. split; [reflexivity|].
           simpl in Ht. intros Hv. rewrite Hv in Ht. discriminate.
      * rewrite (for_range_continue _ _ _ Hit Ht) in Ho. exact (IH _ Ht Ho).
    + rewrite (for_range_unhandled _ _ _ Hit) in Ho. injection Ho as <-.
      apply iteration_unhandled_iff in Hit as (bc & _ & _ & Hc). eauto.
    + rewrite (for_range_fault _ _ _ Hit) in Ho. discriminate.
Qed.

(** X7: whatever the method, the inputs and the limit, a call that
    returns hands back "can't handle" with an opcode that has no handler,
    ["ok"], ["divide by zero"], ["out of time"], or a value that is
    neither 0 nor [False]; it never returns [None], and never 0. *)
Theorem run_outcomes
    (code : list Instr) (inputs : list Value) (limit : Z) (r : Returned) :
  outcome (run code inputs limit) = Ok r ->
  (exists o, r = CantHandle o /\ getattr_step ("step_" ++ o) = None)
  \/ r = SelfDone (Some (DStr "ok"))
  \/ r = SelfDone (Some (DStr "divide by zero"))
  \/ r = SelfDone (Some (DStr "out of time"))
  \/ exists v, r = SelfDone (Some (DVal v)) /\ as_int v <> 0.
Proof.
  intros Ho. unfold run, interpret in Ho.
  destruct (for_range_outcomes _ (create_interpreter code inputs) r eq_refl Ho)
    as [(o & -> & Hc)|H]; [|right; exact H].
  left. exists o. rewrite getattr_step_opcode, Hc. auto.
Qed.


(** ** The instruction that ends a run *)










(** ** Stack shuffling and branches *)

Lemma step_swap_top (bc : Instr) (self : ExtendedInterpreter) (a b : Value) (rest : list Value) :
  stack self = a :: b :: rest ->
  step_swap bc self = Ok (pc_incr (with_stack (b :: a :: rest) self)).
Proof.
  intros Hst. unfold step_swap. rewrite Hst.
  rewrite getitem_second, getitem_head. cbn [bind].
  rewrite setitem_head. cbn [bind]. rewrite setitem_second. reflexivity.
Qed.

(** X13: [swap] exchanges the two top entries and nothing else; done
    twice it gives back the stack and the locals it started from, two
    instructions further. *)
Theorem swap_involution
    (bc bc' : Instr) (self : ExtendedInterpreter) (a b : Value) (rest : list Value) :
  stack self = a :: b :: rest ->
  exists s1,
    step_swap bc self = Ok s1
    /\ stack s1 = b :: a :: rest
    /\ step_swap bc' s1 = Ok (with_pc (pc self + 2) self).
Proof.
  intros Hst. eexists. split; [apply step_swap_top; exact Hst|].
  split; [reflexivity|].
  rewrite (step_swap_top bc' _ b a rest) by reflexivity.
  destruct self as [co ls st p d]. simpl in *. subst st.
  unfold pc_incr, with_pc, with_stack. simpl. do 2 f_equal. lia.
Qed.

(** X14: [add] and [multiply] do not depend on the order of their
    operands, [subtract] does: after a [swap] they push the same sum and
    product, and the negated difference. *)
Theorem swap_then_arithmetic
    (bc : Instr) (self : ExtendedInterpreter) (a b : Value) (rest : list Value) :
  stack self = a :: b :: rest ->
  (do s <- step_swap bc self; do s <- step_add bc s; Ok (stack s))
  = (do s <- step_add bc self; Ok (stack s))
  /\ (do s <- step_swap bc self; do s <- step_multiply bc s; Ok (stack s))
     = (do s <- step_multiply bc self; Ok (stack s))
  /\ (do s <- step_swap bc self; do s <- step_subtract bc s; Ok (stack s))
     = Ok (VInt (as_int a - as_int b) :: rest)
  /\ (do s <- step_subtract bc self; Ok (stack s))
     = Ok (VInt (as_int b - as_int a) :: rest).
Proof.
  intros Hst. rewrite (step_swap_top bc self a b rest Hst).
  unfold step_add, step_multiply, step_subtract. rewrite Hst. simpl.
  unfold py_add, py_mul, insert0.
  rewrite (Z.add_comm (as_int b)), (Z.mul_comm (as_int b)). repeat split; reflexivity.
Qed.

(** X15: the branches pop [a] (pushed last) and [b] (pushed first);
    [if_icmpge] jumps to its target when [b >= a], [if_icmpne] when
    [a != b], and each goes on to the next instruction otherwise.
    Booleans compare as 1 and 0. *)
Theorem branch_semantics
    (bc : Instr) (self : ExtendedInterpreter) (a b : Value) (rest : list Value) (t : Z) :
  stack self = a :: b :: rest ->
  fields bc = FTarget t ->
  step_if_icmpge bc self
  = Ok (with_pc (if as_int a <=? as_int b then t else pc self + 1) (with_stack rest self))
  /\ step_if_icmpne bc self
     = Ok (with_pc (if as_int a =? as_int b then pc self + 1 else t) (with_stack rest self)).
Proof.
  intros Hst Hf. unfold step_if_icmpge, step_if_icmpne, bc_target.
  rewrite Hst, Hf. simpl. unfold py_ge, py_ne, py_eq.
  destruct (as_int a <=? as_int b), (as_int a =? as_int b); split; reflexivity.
Qed.

(** ** Records with a missing field *)

(** X16: an instruction record that has only its ["opr"] key makes
    [push], [load], [store] and [return] raise [KeyError] in every
    state, before the stack is touched; a branch reads its target only
    when it jumps, so it raises [KeyError] when the comparison holds and
    falls through normally when it does not. *)
Theorem missing_field_key_error
    (bc : Instr) (self : ExtendedInterpreter) (a b : Value) (rest : list Value) :
  fields bc = NoFields ->
  step_push bc self = Raise (KeyError "value")
  /\ step_load bc self = Raise (KeyError "index")
  /\ step_store bc self = Raise (KeyError "index")
  /\ step_return bc self = Raise (KeyError "type")
  /\ (stack self = a :: b :: rest ->
      step_if_icmpge bc self
      = (if as_int a <=? as_int b then Raise (KeyError "target")
         else Ok (pc_incr (with_stack rest self)))
      /\ step_if_icmpne bc self
         = (if as_int a =? as_int b then Ok (pc_incr (with_stack rest self))
            else Raise (KeyError "target"))).
Proof.
  intros Hf.
  unfold step_push, step_load, step_store, step_return, step_if_icmpge, step_if_icmpne,
    bc_value, bc_index, bc_type, bc_target.
  rewrite Hf. simpl. repeat (split; [reflexivity|]).
  intros ->. simpl. unfold py_ge, py_ne, py_eq.
  destruct (as_int a <=? as_int b), (as_int a =? as_int b); split; reflexivity.
Qed.

(** ** Indices below zero *)

Lemma norm_index_negative (len : nat) (i : Z) :
  0 <= i < Z.of_nat len ->
  norm_index len (i - Z.of_nat len) = norm_index len i.
Proof.
  intros Hi. unfold norm_index.
  destruct (Z.leb_spec 0 (i - Z.of_nat len)); [lia|]. simpl.
  destruct (Z.leb_spec (- Z.of_nat len) (i - Z.of_nat len)); [|lia].
  destruct (Z.ltb_spec (i - Z.of_nat len) 0); [|lia].
  destruct (Z.leb_spec 0 i); [|lia].
  destruct (Z.ltb_spec i (Z.of_nat len)); [|lia].
  simpl. f_equal. lia.
Qed.

(** X17: an index below zero counts from the end.  With [m] locals and
    [0 <= i < m], [load] and [store] of slot [i - m] are [load] and
    [store] of slot [i]; with [n] instructions and the pc at
    [0 <= p < n], a jump to [p - n] fetches the instruction at [p]. *)
Theorem negative_index_counts_from_end
    (self : ExtendedInterpreter) (i : Z) :
  (0 <= i < Z.of_nat (length (locals self)) ->
   step_load (i_load (i - Z.of_nat (length (locals self)))) self
   = step_load (i_load i) self
   /\ step_store (i_store (i - Z.of_nat (length (locals self)))) self
      = step_store (i_store i) self)
  /\ (0 <= pc self < Z.of_nat (length (bytecode self)) ->
      fetch (with_pc (pc self - Z.of_nat (length (bytecode self))) self) = fetch self).
Proof.
  split.
  - intros Hi. unfold step_load, step_store, bc_index, i_load, i_store, getitem, setitem.
    cbn [fields bind]. rewrite (norm_index_negative _ _ Hi). split; reflexivity.
  - intros Hp. unfold fetch, getitem, with_pc. cbn [bytecode pc].
    rewrite (norm_index_negative _ _ Hp). reflexivity.
Qed.

(** X18: [store] writes one slot only: it keeps the number of locals,
    and every index that names another slot reads what it read before. *)
Theorem store_other_slots
    (bc : Instr) (self self' : ExtendedInterpreter) (i j : Z) :
  fields bc = FIndex i ->
  step_store bc self = Ok self' ->
  norm_index (length (locals self)) j <> norm_index (length (locals self)) i ->
  length (locals self') = length (locals self)
  /\ getitem (locals self') j = getitem (locals self) j.
Proof.
  intros Hf Hs Hne. unfold step_store, bc_index in Hs. rewrite Hf in Hs. simpl in Hs.
  destruct (stack self) as [|v st]; [discriminate|]. simpl in Hs.
  unfold setitem in Hs.
  destruct (norm_index (length (locals self)) i) as [n|] eqn:Hn; [|discriminate].
  injection Hs as <-. simpl. rewrite length_insert. split; [reflexivity|].
  unfold getitem. rewrite length_insert.
  destruct (norm_index (length (locals self)) j) as [m|]; [|reflexivity].
  rewrite list_lookup_insert_ne by congruence. reflexivity.
Qed.

(** ** Parsing a method identifier *)

Local Open Scope string_scope.

Lemma string_app_nil_r (s : string) : s ++ "" = s.
Proof. induction s as [|c s IH]; simpl; [reflexivity|rewrite IH; reflexivity]. Qed.

Lemma string_app_assoc (s t u : string) : (s ++ t) ++ u = s ++ t ++ u.
Proof. induction s as [|c s IH]; simpl; [reflexivity|rewrite IH; reflexivity]. Qed.

Lemma all_chars_app (P : ascii -> bool) (s t : string) :
  all_chars P (s ++ t) = all_chars P s && all_chars P t.
Proof.
  induction s as [|c s IH]; simpl; [reflexivity|].
  rewrite IH, andb_assoc. reflexivity.
Qed.

Lemma all_chars_impl (P Q : ascii -> bool) (s : string) :
  (forall c, P c = true -> Q c = true) ->
  all_chars P s = true -> all_chars Q s = true.
Proof.
  intros HPQ. induction s as [|c s IH]; simpl; [reflexivity|].
  intros H. apply andb_true_iff in H as [Hc Hs].
  rewrite (HPQ c Hc), (IH Hs). reflexivity.
Qed.

(** If the group can take [p] and the pattern then matches, it does. *)
Lemma greedy_skip (k : string -> option Match) (name p acc s : string) (i : Match) :
  all_chars dot p = true ->
  greedy k name (acc ++ p) s = Some i ->
  greedy k name acc (p ++ s) = Some i.
Proof.
  revert acc. induction p as [|c p IH]; intros acc Hp Hg.
  - rewrite string_app_nil_r in Hg. exact Hg.
  - simpl in Hp. apply andb_true_iff in Hp as [Hc Hp].
    simpl. rewrite Hc. rewrite (IH (acc ++ String c "") Hp); [reflexivity|].
    rewrite string_app_assoc. exact Hg.
Qed.

(** A group followed by a character that does not occur cannot match. *)
Lemma greedy_lacks (c : ascii) (re : list Re) (name acc s : string) :
  lacks c s = true ->
  greedy (re_match (Lit c :: re)) name acc s = None.
Proof.
  revert acc. induction s as [|c' s IH]; intros acc Hs.
  - reflexivity.
  - unfold lacks in Hs. simpl in Hs. apply andb_true_iff in Hs as [Hc Hs].
    simpl. rewrite (IH _ Hs). unfold close_group. simpl.
    apply negb_true_iff in Hc. rewrite Hc. destruct (dot c'); reflexivity.
Qed.

(** A group ends before the last occurrence of the character that
    follows it in the pattern. *)
Lemma greedy_lit (c : ascii) (re : list Re) (name acc p rest : string) (i : Match) :
  all_chars dot p = true ->
  lacks c rest = true ->
  re_match re rest = Some i ->
  greedy (re_match (Lit c :: re)) name acc (p ++ String c rest)
  = Some ((name, acc ++ p) :: i).
Proof.
  intros Hp Hrest Hre. apply greedy_skip; [exact Hp|].
  simpl. rewrite (greedy_lacks c re name _ rest Hrest).
  unfold close_group. simpl. rewrite Ascii.eqb_refl, Hre.
  destruct (dot c); reflexivity.
Qed.

(** The last group runs to the end of the line. *)
Lemma greedy_end (name acc r : string) :
  all_chars dot r = true ->
  greedy (re_match []) name acc r = Some [(name, acc ++ r)].
Proof.
  intros Hr. rewrite <- (string_app_nil_r r) at 1.
  apply greedy_skip; [exact Hr|]. reflexivity.
Qed.

Lemma lacks_app (c : ascii) (s t : string) :
  lacks c (s ++ t) = lacks c s && lacks c t.
Proof. apply all_chars_app. Qed.

Lemma lacks_cons (c c' : ascii) (s : string) :
  lacks c (String c' s) = negb (Ascii.eqb c c') && lacks c s.
Proof. reflexivity. Qed.

Lemma re_match_star (name : string) (re : list Re) (s : string) :
  re_match (Group name false :: re) s = greedy (re_match re) name "" s.
Proof. reflexivity. Qed.

Lemma re_match_plus (name : string) (re : list Re) (c : ascii) (s : string) :
  dot c = true ->
  re_match (Group name true :: re) (String c s) = greedy (re_match re) name (String c "") s.
Proof. intros Hc. simpl. rewrite Hc. reflexivity. Qed.

Lemma re_match_lit (c : ascii) (re : list Re) (s : string) :
  re_match (Lit c :: re) (String c s) = re_match re s.
Proof. simpl. rewrite Ascii.eqb_refl. reflexivity. Qed.

(** The groups of a well-formed method identifier. *)
Lemma re_match_RE (c0 : ascii) (cls m ps r : string) :
  all_chars dot (String c0 cls) = true ->
  all_chars dot m = true -> lacks "." m = true ->
  all_chars dot ps = true -> lacks "." ps = true -> lacks ":" ps = true ->
  all_chars dot r = true -> lacks "." r = true -> lacks ":" r = true ->
  lacks ")" r = true ->
  re_match RE (String c0 cls ++ "." ++ m ++ ":(" ++ ps ++ ")" ++ r)
  = Some [ ("class_name", String c0 cls); ("method_name", m);
           ("params", ps); ("return", r) ].
Proof.
  intros Hcls Hm Hmd Hps Hpsd Hpsc Hr Hrd Hrc Hrp.
  simpl in Hcls. apply andb_true_iff in Hcls as [Hc0 Hcls].
  unfold RE.
  change (String c0 cls ++ "." ++ m ++ ":(" ++ ps ++ ")" ++ r)
    with (String c0 (cls ++ String "." (m ++ String ":" (String "(" (ps ++ String ")" r))))).
  rewrite (re_match_plus _ _ _ _ Hc0).
  apply (greedy_lit "."%char _ "class_name" (String c0 "") cls _ _ Hcls).
  { rewrite !lacks_app, !lacks_cons, !lacks_app, !lacks_cons, Hmd, Hpsd, Hrd. reflexivity. }
  rewrite re_match_star.
  apply (greedy_lit ":"%char _ "method_name" "" m _ _ Hm).
  { rewrite !lacks_cons, !lacks_app, !lacks_cons, Hpsc, Hrc. reflexivity. }
  rewrite re_match_lit, re_match_star.
  apply (greedy_lit ")"%char _ "params" "" ps r _ Hps Hrp).
  rewrite re_match_star. apply greedy_end. exact Hr.
Qed.

Lemma TYPE_LOOKUP_char (c : ascii) :
  TYPE_LOOKUP (String c "")
  = if Ascii.eqb c "Z" then Ok "boolean"
    else if Ascii.eqb c "I" then Ok "int"
    else Raise (KeyError (String c "")).
Proof.
  unfold TYPE_LOOKUP. simpl.
  destruct (Ascii.eqb c "Z"), (Ascii.eqb c "I"); reflexivity.
Qed.

Lemma lookup_all_type_chars (ps : string) (pts : list string) :
  lookup_all (chars ps) = Ok pts -> all_chars is_type_char ps = true.
Proof.
  revert pts. induction ps as [|c ps IH]; intros pts; [reflexivity|].
  cbn [chars lookup_all all_chars]. rewrite TYPE_LOOKUP_char. unfold is_type_char.
  destruct (Ascii.eqb c "Z"); [|destruct (Ascii.eqb c "I"); [|discriminate]];
    cbn [bind orb andb];
    (destruct (lookup_all (chars ps)) as [ts|]; [|discriminate]);
    intros _; exact (IH ts eq_refl).
Qed.

Lemma type_char_plain (c : ascii) :
  is_type_char c = true ->
  dot c = true /\ negb (Ascii.eqb "." c) = true /\ negb (Ascii.eqb ":" c) = true
  /\ negb (Ascii.eqb ")" c) = true.
Proof.
  unfold is_type_char. intros H. apply orb_true_iff in H as [H|H];
    apply Ascii.eqb_eq in H; subst c; repeat split; reflexivity.
Qed.

Lemma type_chars_plain (ps : string) :
  all_chars is_type_char ps = true ->
  all_chars dot ps = true /\ lacks "." ps = true /\ lacks ":" ps = true
  /\ lacks ")" ps = true.
Proof.
  intros H. unfold lacks.
  repeat split; apply (all_chars_impl is_type_char _ ps); try exact H;
    intros c Hc; apply (type_char_plain c Hc).
Qed.

Lemma lookup_return_cases (r : string) (rt : option string) :
  lookup_return r = Ok rt ->
  (r = "V" /\ rt = None) \/ (r = "Z" /\ rt = Some "boolean") \/ (r = "I" /\ rt = Some "int").
Proof.
  unfold lookup_return, TYPE_LOOKUP.
  destruct (String.eqb_spec r "V") as [->|_]; [intros [= <-]; auto|].
  destruct (String.eqb_spec r "Z") as [->|_]; [intros [= <-]; auto|].
  destruct (String.eqb_spec r "I") as [->|_]; [intros [= <-]; auto|].
  discriminate.
Qed.

Lemma parse_groups (name cls m ps r : string) :
  re_match RE name
  = Some [ ("class_name", cls); ("method_name", m); ("params", ps); ("return", r) ] ->
  parse name
  = match lookup_all (chars ps) with
    | Raise e => Uncaught e
    | Ok pts =>
        match lookup_return r with
        | Raise e => Uncaught e
        | Ok rt => Went (mkMethodId cls m pts rt)
        end
    end.
Proof. intros H. unfold parse. rewrite H. reflexivity. Qed.

(** X19: [parse] takes a well-formed identifier apart.  For a non-empty
    class name (dots allowed), a method name without a dot, parameter
    characters that [TYPE_LOOKUP] knows and a return descriptor [V], [Z]
    or [I], the string [class.method:(params)return] parses to exactly
    these parts, the class name being everything before the last dot. *)
Theorem parse_well_formed
    (cls m ps r : string) (pts : list string) (rt : option string) :
  cls <> "" ->
  all_chars dot cls = true ->
  all_chars dot m = true ->
  lacks "." m = true ->
  lookup_all (chars ps) = Ok pts ->
  lookup_return r = Ok rt ->
  parse (cls ++ "." ++ m ++ ":(" ++ ps ++ ")" ++ r)
  = Went (mkMethodId cls m pts rt).
Proof.
  intros Hne Hcls Hm Hmd Hps Hr.
  destruct cls as [|c0 cls]; [contradiction|].
  destruct (type_chars_plain ps (lookup_all_type_chars _ _ Hps)) as (Hp1 & Hp2 & Hp3 & _).
  assert (all_chars dot r = true /\ lacks "." r = true /\ lacks ":" r = true
          /\ lacks ")" r = true) as (Hr1 & Hr2 & Hr3 & Hr4).
  { destruct (lookup_return_cases _ _ Hr) as [[-> _]|[[-> _]|[-> _]]];
      repeat split; reflexivity. }
  rewrite (parse_groups _ _ _ _ _
             (re_match_RE c0 cls m ps r Hcls Hm Hmd Hp1 Hp2 Hp3 Hr1 Hr2 Hr3 Hr4)).
  rewrite Hps, Hr. reflexivity.
Qed.



(** Where a group ended, the rest of the pattern matched. *)
Lemma greedy_inv (k : string -> option Match) (name acc s : string) (i : Match) :
  greedy k name acc s = Some i ->
  exists p t i', s = p ++ t /\ k t = Some i' /\ i = (name, acc ++ p) :: i'
                 /\ all_chars dot p = true.
Proof.
  assert (forall acc s, close_group k name acc s = Some i ->
            exists p t i', s = p ++ t /\ k t = Some i' /\ i = (name, acc ++ p) :: i'
                           /\ all_chars dot p = true) as Hclose.
  { intros acc' s'. unfold close_group. destruct (k s') as [i'|] eqn:Hk; [|discriminate].
    intros [= <-]. exists "", s', i'. rewrite string_app_nil_r. auto. }
  revert acc. induction s as [|c s IH]; intros acc; simpl.
  - apply Hclose.
  - destruct (dot c) eqn:Hc; [|apply Hclose].
    destruct (greedy k name (acc ++ String c "") s) as [i0|] eqn:Hg; [|apply Hclose].
    intros [= <-]. destruct (IH _ Hg) as (p & t & i' & -> & Hk & -> & Hp).
    exists (String c p), t, i'. rewrite string_app_assoc. simpl. rewrite Hc, Hp. auto.
Qed.

(** A string that matches contains every literal of the pattern. *)
Lemma re_match_contains (re : list Re) (s : string) (i : Match) (c : ascii) :
  re_match re s = Some i -> In (Lit c) re -> lacks c s = false.
Proof.
  revert s i. induction re as [|[c'|name plus] re IH]; intros s i Hm Hin.
  - destruct Hin.
  - destruct s as [|c'' s]; simpl in Hm; [discriminate|].
    destruct (Ascii.eqb_spec c' c'') as [<-|_]; [|discriminate].
    rewrite lacks_cons. destruct Hin as [[= ->]|Hin].
    + rewrite Ascii.eqb_refl. reflexivity.
    + rewrite (IH _ _ Hm Hin). apply andb_false_r.
  - destruct Hin as [|Hin]; [discriminate|].
    destruct plus.
    + destruct s as [|c0 s]; simpl in Hm; [discriminate|].
      destruct (dot c0); [|discriminate].
      apply greedy_inv in Hm as (p & t & i' & -> & Hk & _).
      rewrite lacks_cons, lacks_app, (IH _ _ Hk Hin), !andb_false_r. reflexivity.
    + rewrite re_match_star in Hm.
      apply greedy_inv in Hm as (p & t & i' & -> & Hk & _).
      rewrite lacks_app, (IH _ _ Hk Hin), andb_false_r. reflexivity.
Qed.

(** X22: a string without a dot, without a colon, without an opening or
    without a closing parenthesis is no method identifier: [parse] ends
    in [sys.exit(-1)]. *)
Theorem parse_rejects (name : string) (c : ascii) :
  In c ["."%char; ":"%char; "("%char; ")"%char] ->
  lacks c name = true ->
  parse name = SysExit (-1).
Proof.
  intros Hc Hl. unfold parse.
  destruct (re_match RE name) as [i|] eqn:Hm; [|reflexivity].
  assert (In (Lit c) RE) as Hin.
  { unfold RE. simpl in *. destruct Hc as [<-|[<-|[<-|[<-|[]]]]]; auto 10. }
  rewrite (re_match_contains _ _ _ _ Hm Hin) in Hl. discriminate.
Qed.

Lemma re_match_lit_inv (c : ascii) (re : list Re) (s : string) (i : Match) :
  re_match (Lit c :: re) s = Some i ->
  exists s', s = String c s' /\ re_match re s' = Some i.
Proof.
  destruct s as [|c' s']; cbn [re_match]; [discriminate|].
  destruct (Ascii.eqb_spec c c') as [<-|_]; [|discriminate]. eauto.
Qed.

Lemma re_match_plus_inv (name : string) (re : list Re) (s : string) (i : Match) :
  re_match (Group name true :: re) s = Some i ->
  exists c s', s = String c s' /\ dot c = true
               /\ greedy (re_match re) name (String c "") s' = Some i.
Proof.
  destruct s as [|c s']; cbn [re_match]; [discriminate|].
  destruct (dot c) eqn:Hc; [|discriminate]. intros H. exists c, s'. auto.
Qed.

(** X23: whatever [parse] accepts has the shape
    [class.method:(params)return] at its start: the four parts of the
    result are read from there, the class name is not empty, no part
    contains a newline, and what may follow is not looked at. *)
Theorem parse_shape (name : string) (mid : MethodId) :
  parse name = Went mid ->
  exists ps r rest,
    name = class_name mid ++ "." ++ method_name mid ++ ":(" ++ ps ++ ")" ++ r ++ rest
    /\ class_name mid <> ""
    /\ all_chars dot (class_name mid) = true
    /\ all_chars dot (method_name mid) = true
    /\ lookup_all (chars ps) = Ok (params mid)
    /\ lookup_return r = Ok (return_type mid).
Proof.
  unfold parse. destruct (re_match RE name) as [i|] eqn:Hm; [|discriminate].
  unfold RE in Hm.
  apply re_match_plus_inv in Hm as (c0 & s0 & -> & Hc0 & Hm).
  apply greedy_inv in Hm as (cls & t1 & i1 & -> & Hm & -> & Hcls).
  apply re_match_lit_inv in Hm as (t1' & -> & Hm).
  rewrite re_match_star in Hm.
  apply greedy_inv in Hm as (m & t2 & i2 & -> & Hm & -> & Hmn).
  apply re_match_lit_inv in Hm as (t2' & -> & Hm).
  apply re_match_lit_inv in Hm as (t2'' & -> & Hm).
  rewrite re_match_star in Hm.
  apply greedy_inv in Hm as (ps & t3 & i3 & -> & Hm & -> & _).
  apply re_match_lit_inv in Hm as (t3' & -> & Hm).
  rewrite re_match_star in Hm.
  apply greedy_inv in Hm as (r & rest & i4 & -> & Hm & -> & _).
  injection Hm as <-.
  change (group _ "params") with ps. change (group _ "return") with r.
  change (group _ "class_name") with (String c0 cls).
  change (group _ "method_name") with m.
  destruct (lookup_all (chars ps)) as [pts|] eqn:Hps; [|discriminate].
  destruct (lookup_return r) as [rt|] eqn:Hr; [|discriminate].
  intros [= <-]. cbn [class_name method_name params return_type].
  exists ps, r, rest. cbn [all_chars]. rewrite Hc0, Hcls.
  repeat split; try assumption; try discriminate.
Qed.

(** ** Finding the method *)

Local Close Scope string_scope.

Lemma all_base_equal_true (ps : list string) (ts : list (option string)) :
  length ps = length ts ->
  (all_base_equal ps ts = Ok true <-> ts = map Some ps).
Proof.
  revert ts. induction ps as [|p ps IH]; intros [|t ts] Hlen; try discriminate.
  - split; reflexivity.
  - injection Hlen as Hlen. cbn [all_base_equal map].
    destruct t as [base|]; [|split; discriminate].
    destruct (String.eqb_spec p base) as [->|Hne].
    + rewrite (IH ts Hlen). split; [intros ->; reflexivity|intros [= ->]; reflexivity].
    + split; [discriminate|]. intros [= E _]. congruence.
Qed.

(** The test of [load] holds of the methods with the name and exactly
    the parameter types of the identifier. *)
Lemma is_method_true (self : MethodId) (m : Method) :
  is_method self m = Ok true
  <-> m_name m = method_name self /\ m_params m = map Some (params self).
Proof.
  unfold is_method.
  destruct (String.eqb_spec (m_name m) (method_name self)) as [Hn|Hn].
  - destruct (Nat.eqb_spec (length (params self)) (length (m_params m))) as [Hl|Hl].
    + rewrite (all_base_equal_true _ _ Hl). tauto.
    + split; [discriminate|]. intros [_ E]. rewrite E, length_map in Hl. contradiction.
  - split; [discriminate|]. tauto.
Qed.

(** X24: [load] hands back the first method of the class whose name is
    the identifier's and whose parameter types are exactly the
    identifier's, every method before it having failed the test without
    an exception; [create_interpreter] then starts on its bytecode at pc
    0 with an empty stack, the inputs as locals and no outcome. *)
Theorem load_first_match
    (self : MethodId) (methods : list Method) (m : Method) (inputs : list Value) :
  (load self methods = Went m
   <-> exists before after,
         methods = before ++ m :: after
         /\ Forall (fun m' => is_method self m' = Ok false) before
         /\ m_name m = method_name self
         /\ m_params m = map Some (params self))
  /\ (load self methods = Went m ->
      MethodId_create_interpreter self methods inputs
      = Went (mkInterp (m_bytecode m) inputs [] 0 None)).
Proof.
  split.
  - induction methods as [|m0 methods IH]; cbn [load].
    + split; [discriminate|]. intros (before & after & E & _).
      destruct before; discriminate.
    + destruct (is_method self m0) as [[|]|e] eqn:H0.
      * split.
        -- intros [= ->]. exists [], methods. apply is_method_true in H0 as [Hn Hp].
           repeat split; auto.
        -- intros (before & after & E & Hb & Hn & Hp).
           destruct before as [|b before].
           ++ injection E as -> _. reflexivity.
           ++ injection E as <- _. apply Forall_cons in Hb as [Hb _]. congruence.
      * rewrite IH. split.
        -- intros (before & after & -> & Hb & Hn & Hp).
           exists (m0 :: before), after. repeat split; auto.
        -- intros (before & after & E & Hb & Hn & Hp).
           destruct before as [|b before].
           ++ injection E as -> _.
              assert (is_method self m = Ok true) as Ht by (apply is_method_true; auto).
              congruence.
           ++ injection E as <- ->. apply Forall_cons in Hb as [_ Hb].
              exists before, after. auto.
      * split; [discriminate|]. intros (before & after & E & Hb & Hn & Hp).
        destruct before as [|b before].
        -- injection E as -> _.
           assert (is_method self m = Ok true) as Ht by (apply is_method_true; auto).
           congruence.
        -- injection E as <- _. apply Forall_cons in Hb as [Hb _]. congruence.
  - intros H. unfold MethodId_create_interpreter. rewrite H. reflexivity.
Qed.

(** X25: [load] ends in [sys.exit(-1)] exactly when every method of the
    class fails the test (an empty class included); no other status is
    ever used. *)
Theorem load_exit_iff (self : MethodId) (methods : list Method) (status : Z) :
  load self methods = SysExit status
  <-> status = -1 /\ Forall (fun m => is_method self m = Ok false) methods.
Proof.
  induction methods as [|m0 methods IH]; cbn [load].
  - split; [intros [= <-]; auto|intros [-> _]; reflexivity].
  - destruct (is_method self m0) as [[|]|e] eqn:H0.
    + split; [discriminate|]. intros [_ H]. apply Forall_cons in H as [H _]. congruence.
    + rewrite IH. split; intros [Hs H]; (split; [exact Hs|]).
      * constructor; assumption.
      * apply Forall_cons in H as [_ H]. exact H.
    + split; [discriminate|]. intros [_ H]. apply Forall_cons in H as [H _]. congruence.
Qed.

Lemma all_base_equal_raise (ps : list string) (ts : list (option string)) (e : Exn) :
  all_base_equal ps ts = Raise e -> e = KeyError "base" /\ In None ts.
Proof.
  revert ts. induction ps as [|p ps IH]; intros [|t ts]; cbn [all_base_equal];
    try discriminate.
  destruct t as [base|].
  - destruct (String.eqb p base); [|discriminate].
    intros H. destruct (IH _ H) as [-> Hin]. split; [reflexivity|right; exact Hin].
  - intros [= <-]. split; [reflexivity|left; reflexivity].
Qed.

(** X26: the only exception of [load] is a [KeyError] for ["base"], and
    it comes from a method with the name and the number of parameters of
    the identifier that has a parameter type without that key; methods
    with another name or another number of parameters are skipped
    without their parameter types being read. *)
Theorem load_key_error (self : MethodId) (methods : list Method) (e : Exn) :
  load self methods = Uncaught e ->
  e = KeyError "base"
  /\ exists m, In m methods
               /\ m_name m = method_name self
               /\ length (m_params m) = length (params self)
               /\ In None (m_params m).
Proof.
  induction methods as [|m0 methods IH]; cbn [load]; [discriminate|].
  destruct (is_method self m0) as [[|]|e0] eqn:H0.
  - discriminate.
  - intros H. destruct (IH H) as (-> & m & Hin & Hm). split; [reflexivity|].
    exists m. split; [right; exact Hin|exact Hm].
  - intros [= <-]. unfold is_method in H0.
    destruct (String.eqb_spec (m_name m0) (method_name self)) as [Hn|]; [|discriminate].
    destruct (Nat.eqb_spec (length (params self)) (length (m_params m0))) as [Hl|];
      [|discriminate].
    destruct (all_base_equal_raise _ _ _ H0) as [-> Hin]. split; [reflexivity|].
    exists m0. split; [left; reflexivity|]. auto.
Qed.

(** ** The further properties at concrete inputs *)

(** X1 on [add] with 1 and 2 on the stack. *)
Lemma step_stack_effect_witness :
  (length (stack (pc_incr (with_stack [VInt 3] (at_binary i_add (VInt 1) (VInt 2)))))
   + operands_needed ADD i_add
   = length (stack (at_binary i_add (VInt 1) (VInt 2)))
     + produced ADD (at_binary i_add (VInt 1) (VInt 2)))%nat.
Proof.
  apply (step_stack_effect ADD i_add (at_binary i_add (VInt 1) (VInt 2))). reflexivity.
Defined.

(** X2 on a branch that is taken. *)
Lemma step_pc_effect_witness :
  pc (with_pc 7 (with_stack [] (at_binary (i_if_icmpge 7) (VInt 1) (VInt 2))))
  = pc (at_binary (i_if_icmpge 7) (VInt 1) (VInt 2)) + 1
  \/ fields (i_if_icmpge 7)
     = FTarget (pc (with_pc 7 (with_stack [] (at_binary (i_if_icmpge 7) (VInt 1) (VInt 2))))).
Proof.
  apply (step_pc_effect IF_ICMPGE (i_if_icmpge 7)
           (at_binary (i_if_icmpge 7) (VInt 1) (VInt 2))). reflexivity.
Defined.


(** X7 on [add_method]. *)
Lemma run_outcomes_witness :
  (exists o, SelfDone (Some (DVal (VInt 8))) = CantHandle o
             /\ getattr_step ("step_" ++ o) = None)
  \/ SelfDone (Some (DVal (VInt 8))) = SelfDone (Some (DStr "ok"))
  \/ SelfDone (Some (DVal (VInt 8))) = SelfDone (Some (DStr "divide by zero"))
  \/ SelfDone (Some (DVal (VInt 8))) = SelfDone (Some (DStr "out of time"))
  \/ exists v, SelfDone (Some (DVal (VInt 8))) = SelfDone (Some (DVal v)) /\ as_int v <> 0.
Proof.
  apply (run_outcomes add_method [] 100). reflexivity.
Defined.


(** X13 on 1 above 2. *)
Lemma swap_involution_witness :
  exists s1,
    step_swap i_swap (at_binary i_swap (VInt 1) (VInt 2)) = Ok s1
    /\ stack s1 = [VInt 2; VInt 1]
    /\ step_swap i_swap s1
       = Ok (with_pc (pc (at_binary i_swap (VInt 1) (VInt 2)) + 2)
               (at_binary i_swap (VInt 1) (VInt 2))).
Proof.
  apply (swap_involution i_swap i_swap (at_binary i_swap (VInt 1) (VInt 2))
           (VInt 1) (VInt 2) []). reflexivity.
Defined.

(** X14 on 3 above 10. *)
Lemma swap_then_arithmetic_witness :
  (do s <- step_swap i_subtract (at_binary i_subtract (VInt 3) (VInt 10));
   do s <- step_subtract i_subtract s; Ok (stack s))
  = Ok [VInt (3 - 10)].
Proof.
  apply (swap_then_arithmetic i_subtract (at_binary i_subtract (VInt 3) (VInt 10))
           (VInt 3) (VInt 10) []). reflexivity.
Defined.

(** X15 on [True] above 1: equal, so [if_icmpne] does not jump. *)
Lemma branch_semantics_witness :
  step_if_icmpne (i_if_icmpne 9) (at_binary (i_if_icmpne 9) (VBool true) (VInt 1))
  = Ok (with_pc (if as_int (VBool true) =? as_int (VInt 1)
                 then pc (at_binary (i_if_icmpne 9) (VBool true) (VInt 1)) + 1
                 else 9)
          (with_stack [] (at_binary (i_if_icmpne 9) (VBool true) (VInt 1)))).
Proof.
  apply (branch_semantics (i_if_icmpne 9) (at_binary (i_if_icmpne 9) (VBool true) (VInt 1))
           (VBool true) (VInt 1) [] 9); reflexivity.
Defined.

(** X16 on a [push] record without its value. *)
Lemma missing_field_key_error_witness :
  step_push (mkInstr "push" NoFields) (create_interpreter [] [])
  = Raise (KeyError "value").
Proof.
  apply (missing_field_key_error (mkInstr "push" NoFields) (create_interpreter [] [])
           (VInt 0) (VInt 0) []). reflexivity.
Defined.

(** X17 on slot -1 of two locals. *)
Lemma negative_index_counts_from_end_witness :
  step_load (i_load (1 - Z.of_nat (length (locals two_locals)))) two_locals
  = step_load (i_load 1) two_locals
  /\ step_store (i_store (1 - Z.of_nat (length (locals two_locals)))) two_locals
     = step_store (i_store 1) two_locals.
Proof.
  apply (proj1 (negative_index_counts_from_end two_locals 1)). simpl. lia.
Defined.

(** X18 on a [store] into slot 1, read at slot 0. *)
Lemma store_other_slots_witness :
  length (locals (pc_incr (with_locals [VInt 0; VBool true] (with_stack [] two_locals))))
  = length (locals two_locals)
  /\ getitem (locals (pc_incr (with_locals [VInt 0; VBool true] (with_stack [] two_locals)))) 0
     = getitem (locals two_locals) 0.
Proof.
  apply (store_other_slots (i_store 1) two_locals _ 1 0);
    [reflexivity|reflexivity|vm_compute; discriminate].
Defined.

(** X19 on a method of the benchmark suite. *)
Lemma parse_well_formed_witness :
  parse "jpamb.cases.Simple.divideByN:(I)I"
  = Went (mkMethodId "jpamb.cases.Simple" "divideByN" ["int"%string] (Some "int"%string)).
Proof.
  apply (parse_well_formed "jpamb.cases.Simple" "divideByN" "I" "I");
    [discriminate|reflexivity|reflexivity|reflexivity|reflexivity|reflexivity].
Defined.



(** X22 on an identifier without a class. *)
Lemma parse_rejects_witness :
  parse "divideByN:(I)I" = SysExit (-1).
Proof.
  apply (parse_rejects "divideByN:(I)I" "."%char); [left; reflexivity|reflexivity].
Defined.

(** X23 on an identifier with two parameters. *)
Lemma parse_shape_witness :
  exists ps r rest,
    "a.B.m:(ZI)V"%string
    = (class_name m_zi_id ++ "." ++ method_name m_zi_id ++ ":(" ++ ps ++ ")" ++ r ++ rest)%string
    /\ class_name m_zi_id <> ""%string
    /\ all_chars dot (class_name m_zi_id) = true
    /\ all_chars dot (method_name m_zi_id) = true
    /\ lookup_all (chars ps) = Ok (params m_zi_id)
    /\ lookup_return r = Ok (return_type m_zi_id).
Proof.
  apply (parse_shape "a.B.m:(ZI)V" m_zi_id). reflexivity.
Defined.

(** X24 on [f(int)] behind another method and before an overload. *)
Lemma load_first_match_witness :
  MethodId_create_interpreter f_int_id [g_of_nothing; f_of_int; f_of_boolean] [VInt 4]
  = Went (mkInterp (m_bytecode f_of_int) [VInt 4] [] 0 None).
Proof.
  apply (proj2 (load_first_match f_int_id [g_of_nothing; f_of_int; f_of_boolean]
                  f_of_int [VInt 4])).
  reflexivity.
Defined.

(** X26 on [f(int)] looked up behind [f] of an array. *)
Lemma load_key_error_witness :
  KeyError "base" = KeyError "base"
  /\ exists m, In m [g_of_nothing; f_of_array; f_of_int]
               /\ m_name m = method_name f_int_id
               /\ length (m_params m) = length (params f_int_id)
               /\ In None (m_params m).
Proof.
  apply (load_key_error f_int_id [g_of_nothing; f_of_array; f_of_int]). reflexivity.
Defined.
